(** * speedcam: tracking lifecycle and speed estimation

    A shallow embedding of the Go program (the tracking loop with
    [removeCar], [Car.SpaceTimeTravelled], [Car.MiddleMat], and the
    helpers [padRect], [distanceBetweenPoints], [degToRad], [uuidin],
    [isInsideMask], [writeMatToBytes]).

    Conventions of the embedding:
    - Go [int] is a 64-bit two's-complement integer: a [Z] with the
      wrap-around written out ([Int.wrap]).
    - Go [float64] arithmetic is idealised as arithmetic over the real
      numbers [R] (no rounding, no infinities); [math.Tan], [math.Sqrt],
      [math.Pi] are [tan], [sqrt], [PI].
    - [time.Time] is a number of nanoseconds, [time.Duration] a 64-bit
      number of nanoseconds.
    - [uuid.UUID] (16 bytes) is the 128-bit number those bytes encode.
    - the Go map [CarRegister] is a [gmap]; a run-time panic is the
      [Panic] result. *)

From Stdlib Require Import ZArith List Sorted Reals Machin Lra Lia.
From stdpp Require Import base strings gmap list.

Local Open Scope Z_scope.

(** ** Go machine integers *)

Module Int.

Definition modulus : Z := 2 ^ 64.
Definition half_modulus : Z := 2 ^ 63.

(** Two's-complement wrap-around of a mathematical integer into [int]. *)
Definition wrap (z : Z) : Z := (z + half_modulus) mod modulus - half_modulus.

Definition add (a b : Z) : Z := wrap (a + b).
Definition sub (a b : Z) : Z := wrap (a - b).
Definition mul (a b : Z) : Z := wrap (a * b).
(** Go's [/] on integers truncates toward zero. *)
Definition quot (a b : Z) : Z := wrap (Z.quot a b).

Definition in_range (z : Z) : Prop := - half_modulus <= z < half_modulus.

End Int.

(** ** package image *)

Module image.

Record Point : Type := Pt { X : Z; Y : Z }.

Record Rectangle : Type := Rect { Min : Point; Max : Point }.

Definition Dx (r : Rectangle) : Z := Int.sub (X (Max r)) (X (Min r)).
Definition Dy (r : Rectangle) : Z := Int.sub (Y (Max r)) (Y (Min r)).

End image.

(** ** padRect *)

(** [padRect] of both source files (they are identical).  The four
    clamps are written as the source has them, in order; the last one
    tests [max.Y] and assigns [max.X]. *)
Definition padRect (rect : image.Rectangle) (padAmount : Z) : image.Rectangle :=
  let min := image.Min rect in
  let max := image.Max rect in
  let min := image.Pt (Int.sub (image.X min) padAmount) (image.Y min) in
  let min := image.Pt (image.X min) (Int.sub (image.Y min) padAmount) in
  let max := image.Pt (Int.add (image.X max) padAmount) (image.Y max) in
  let max := image.Pt (image.X max) (Int.add (image.Y max) padAmount) in
  let min := if image.X min <? 0 then image.Pt 0 (image.Y min) else min in
  let min := if image.Y min <? 0 then image.Pt (image.X min) 0 else min in
  let max := if image.X max >? 639 then image.Pt 639 (image.Y max) else max in
  let max := if image.Y max >? 479 then image.Pt 479 (image.Y max) else max in
  image.Rect min max.

(** A rectangle lies in the 640x480 frame. *)
Definition in_frame (r : image.Rectangle) : Prop :=
  0 <= image.X (image.Min r) /\ 0 <= image.Y (image.Min r) /\
  image.X (image.Min r) <= image.X (image.Max r) /\
  image.Y (image.Min r) <= image.Y (image.Max r) /\
  image.X (image.Max r) <= 640 /\ image.Y (image.Max r) <= 480.

(** The property of the padded rectangle that the frame bounds ask for. *)
Definition within_bounds (r : image.Rectangle) : Prop :=
  0 <= image.X (image.Min r) /\ 0 <= image.Y (image.Min r) /\
  image.X (image.Max r) <= 639 /\ image.Y (image.Max r) <= 479.

(** ** package time *)

Module time.

(** An instant, in nanoseconds. *)
Definition Time : Type := Z.
(** A [time.Duration] is an int64 count of nanoseconds. *)
Definition Duration : Type := Z.

Definition minDuration : Duration := - 2 ^ 63.
Definition maxDuration : Duration := 2 ^ 63 - 1.

(** [t.Sub(u)]: the difference, saturated to the range of [Duration]. *)
Definition Sub (t u : Time) : Duration :=
  Z.max minDuration (Z.min maxDuration (t - u)).

(** [d.Seconds()]. *)
Definition Seconds (d : Duration) : R := (IZR d / 1000000000)%R.

End time.

(** ** Opaque handles of the vision library *)

Module gocv.
(** A [*gocv.Mat]: the address of a matrix; 0 is the nil pointer. *)
Definition Mat : Type := N.
End gocv.

Module contrib.
(** A [contrib.Tracker] (the per-object MOSSE tracker). *)
Definition Tracker : Type := N.
End contrib.

Module uuid.
Abbreviation UUID := N (only parsing).
End uuid.

(** ** package blob (the part of it the program uses) *)

Module blob.

Record TrackPoint : Type := MkTrackPoint
  { Point : image.Point; Created : time.Time }.

(** [blob.NewTrackPoint(p)] stamps the point with the current time. *)
Definition NewTrackPoint (now : time.Time) (p : image.Point) : TrackPoint :=
  MkTrackPoint p now.

End blob.

(** ** Cars *)

Record CarTrack : Type := MkCarTrack
  { TrackPoint : blob.TrackPoint; Mat : gocv.Mat }.

Record Car : Type := MkCar
  { Track : list CarTrack; Tracker : contrib.Tracker }.

Record CarMessage : Type := MkCarMessage
  { ImageURI : uuid.UUID;   (* the key "<id>.jpg", identified with the id *)
    Speed : R;
    Distance : R;
    TimeStamp : time.Time }.

Inductive error : Type := errors_New (msg : string).

(** The zero value of [CarTrack]; it is what [nth] falls back to, and every
    index the program uses is in range (see [SpaceTimeTravelled_in_range]
    and [MiddleMat_in_range]). *)
Definition zeroCarTrack : CarTrack :=
  MkCarTrack (blob.MkTrackPoint (image.Pt 0 0) 0) 0%N.

Definition point_at (track : list CarTrack) (i : nat) : image.Point :=
  blob.Point (TrackPoint (nth i track zeroCarTrack)).

Local Open Scope R_scope.

(** ** Geometry *)

Definition fov : R := 112.
Definition distance_to_road : R := 49.5.
Definition image_width : R := 640.

Definition degToRad (degrees : R) : R := degrees * PI / 180.

Definition distanceBetweenPoints (p1 p2 : image.Point) : R :=
  let intX := Rabs (IZR (Int.sub (image.X p1) (image.X p2))) in
  let intY := Rabs (IZR (Int.sub (image.Y p1) (image.Y p2))) in
  sqrt (intX ^ 2 + intY ^ 2).

(** The conversion of [removeCar], with the camera constants as
    parameters. *)
Section Conversion.

Variables (fieldOfViewDegrees distanceToPlane frameWidthPixels : R).
Variable unitConversionFactor : R.

Definition frame_width_of : R :=
  2 * (tan (degToRad (fieldOfViewDegrees * 0.5)) * distanceToPlane).

Definition ftperpixel_of (frameWidthPhysical : R) : R :=
  frameWidthPhysical / frameWidthPixels.

Definition ft_of (frameWidthPhysical distance : R) : R :=
  distance * ftperpixel_of frameWidthPhysical.

Definition mph_of (frameWidthPhysical distance seconds : R) : R :=
  (ft_of frameWidthPhysical distance / seconds) * unitConversionFactor.

End Conversion.

(** The same at the constants of the source: the local variables
    [frame_width], [ftperpixel], [ft] and [mph] of [removeCar] (and
    [frame_width], [ftperpixel], [mph] of the older [main]). *)
Definition frame_width : R := frame_width_of fov distance_to_road.
Definition ftperpixel : R := ftperpixel_of image_width frame_width.
Definition ft (distance : R) : R := ft_of image_width frame_width distance.
Definition mph (distance : R) (duration : time.Duration) : R :=
  mph_of image_width 0.681818 frame_width distance (time.Seconds duration).

(** ** Car.MiddleMat and Car.SpaceTimeTravelled *)

Definition MiddleMat (c : Car) : option gocv.Mat * option error :=
  if (length (Track c) =? 0)%nat
  then (None, Some (errors_New "Track length is zero!"))
  else
    let midPoint := nth (length (Track c) / 2) (Track c) zeroCarTrack in
    (Some (Mat midPoint), None).

(** A nil slice and an empty slice both have length 0, and both branches
    return [(0, 0, err)]; the list has one representation for the two.
    The loop runs for [i = 0 .. len-3]: its bound is [len(c.Track)-2]. *)
Definition SpaceTimeTravelled (c : Car) : R * time.Duration * option error :=
  if (length (Track c) =? 0)%nat
  then (0, 0%Z, Some (errors_New "Track length is zero!"))
  else
    let lastPoint := TrackPoint (nth (length (Track c) - 1) (Track c) zeroCarTrack) in
    let firstPoint := TrackPoint (nth 0 (Track c) zeroCarTrack) in
    let distance :=
      fold_left
        (fun distance i =>
           distance + distanceBetweenPoints (point_at (Track c) i)
                                            (point_at (Track c) (i + 1)))
        (seq 0 (length (Track c) - 2)) 0 in
    let timeTaken := time.Sub (blob.Created lastPoint) (blob.Created firstPoint) in
    (distance, timeTaken, None).

(** ** removeCar *)

(** The outcome of a piece of code that may panic. *)
Inductive result (A : Type) : Type :=
| Ok (a : A)
| Panic.
Arguments Ok {A} a.
Arguments Panic {A}.

Definition bind {A B : Type} (r : result A) (k : A -> result B) : result B :=
  match r with
  | Ok a => k a
  | Panic => Panic
  end.

(** Run [step] over the elements of [l] from left to right, stopping at
    the first panic: a [for ... range] loop. *)
Fixpoint for_range {S A : Type} (step : S -> A -> result S) (l : list A) (s : S)
  : result S :=
  match l with
  | [] => Ok s
  | a :: l' => bind (step s a) (for_range step l')
  end.

(** What leaves the program at a finalization. *)
Inductive Event : Type :=
| S3PutObject (Key : uuid.UUID) (Body : gocv.Mat)   (* s3Client.PutObject *)
| ChanSend (msg : CarMessage).                      (* carMessageChan <- msg *)

(** The live set [cars] and the events emitted so far. *)
Record State : Type := MkState
  { cars : gmap uuid.UUID Car; emitted : list Event }.

(** [removeCar(carMessageChan, register, id)].  [register[id]] of an
    absent key is the nil [*Car], and [car.SpaceTimeTravelled()] then
    dereferences it: a panic.  The [err] tested is the one of [MiddleMat],
    which overwrites the one of [SpaceTimeTravelled]. *)
Definition removeCar (now : time.Time) (st : State) (id : uuid.UUID) : result State :=
  match cars st !! id with
  | None => Panic
  | Some car =>
      let '(distance, duration, _) := SpaceTimeTravelled car in
      let '(mat, err) := MiddleMat car in
      match err with
      | None =>
          if Rle_dec 60 (ft distance) then
            match mat with
            | Some m =>
                let msg := MkCarMessage id (mph distance duration) (ft distance) now in
                Ok (MkState (delete id (cars st))
                            (emitted st ++ [S3PutObject id m; ChanSend msg]))
            | None => Panic
            end
          else Ok (MkState (delete id (cars st)) (emitted st))
      | Some _ => Ok (MkState (delete id (cars st)) (emitted st))
      end
  end.

(** ** The tracking loop of main *)

(** What one iteration of the loop reads from outside the model, after
    [tracker.Update(bb)]. *)
Record Frame : Type := MkFrame
  { Objects : list uuid.UUID;       (* the keys of tracker.Objects, as range yields them *)
    NewObjects : list uuid.UUID;    (* tracker.NewObjects *)
    NewTrackerMOSSE : uuid.UUID -> contrib.Tracker;
    Update : contrib.Tracker -> image.Rectangle * bool;   (* car.Tracker.Update(img) *)
    frameClone : uuid.UUID -> gocv.Mat;   (* the clone taken in that object's iteration *)
    now : time.Time;
    carIDs : list uuid.UUID }.      (* the keys of cars, as range yields them *)

(** [image.Pt((rect.Min.X*2+rect.Dx())/2, (rect.Min.Y*2+rect.Dy())/2)]. *)
Definition center (rect : image.Rectangle) : image.Point :=
  image.Pt
    (Int.quot (Int.add (Int.mul (image.X (image.Min rect)) 2) (image.Dx rect)) 2)
    (Int.quot (Int.add (Int.mul (image.Y (image.Min rect)) 2) (image.Dy rect)) 2).

(** The loop over [tracker.NewObjects]. *)
Definition registerNew (f : Frame) (register : gmap uuid.UUID Car) : gmap uuid.UUID Car :=
  fold_left (fun register id => <[id := MkCar [] (NewTrackerMOSSE f id)]> register)
            (NewObjects f) register.

(** One iteration of the loop over [tracker.Objects]: the second result
    of [Update] is dropped ([rect, _ := ...]); the point is appended when
    both its coordinates are positive. *)
Definition updateCar (f : Frame) (register : gmap uuid.UUID Car) (i : uuid.UUID)
  : gmap uuid.UUID Car :=
  match register !! i with
  | None => register
  | Some car =>
      let '(rect, _) := Update f (Tracker car) in
      let newPoint := center rect in
      if (image.X newPoint >? 0)%Z && (image.Y newPoint >? 0)%Z
      then <[i := MkCar (Track car ++
                          [MkCarTrack (blob.NewTrackPoint (now f) newPoint) (frameClone f i)])
                        (Tracker car)]> register
      else register
  end.

Definition updateCars (f : Frame) (register : gmap uuid.UUID Car) : gmap uuid.UUID Car :=
  fold_left (updateCar f) (Objects f) register.

(** The inner loop of the removal: [removeCar] for every tracker object
    [o] that is not [i]. *)
Definition removeUnlessSame (f : Frame) (i : uuid.UUID) (st : State) (o : uuid.UUID)
  : result State :=
  if (o =? i)%N then Ok st else removeCar (now f) st i.

(** The end of the iteration: the scene-clear branch, else the double loop
    over [carIDs] and [tracker.Objects]. *)
Definition finalize (f : Frame) (st : State) : result State :=
  if (length (Objects f) =? 0)%nat && (0 <? size (cars st))%nat
  then
    bind (for_range (removeCar (now f)) (carIDs f) st)
         (fun st' => Ok (MkState ∅ (emitted st')))
  else
    for_range (fun st i => for_range (removeUnlessSame f i) (Objects f) st)
              (carIDs f) st.

Definition frameStep (f : Frame) (st : State) : result State :=
  finalize f (MkState (updateCars f (registerNew f (cars st))) (emitted st)).

(** ** The statements the design document makes, in its own words *)

(** "The sum of consecutive TrackPoint distances across the full
    trajectory": one term for every pair of neighbours. *)
Fixpoint consecutive_distance_sum (points : list image.Point) : R :=
  match points with
  | p :: ((q :: _) as rest) => distanceBetweenPoints p q + consecutive_distance_sum rest
  | _ => 0
  end.

Definition trajectory_points (c : Car) : list image.Point :=
  map (fun t => blob.Point (TrackPoint t)) (Track c).

(** The elapsed duration of a trajectory, as [removeCar] receives it. *)
Definition elapsed (c : Car) : time.Duration := snd (fst (SpaceTimeTravelled c)).

(** The cumulative pixel distance, as [removeCar] receives it. *)
Definition pixel_distance (c : Car) : R := fst (fst (SpaceTimeTravelled c)).

(** The object is dropped from the live set and nothing is emitted. *)
Definition discarded (st : State) (id : uuid.UUID) (r : result State) : Prop :=
  r = Ok (MkState (delete id (cars st)) (emitted st)).

(** "Fewer than 2 points, or elapsed duration zero: discard with no
    emitted record." *)
Definition insufficient_data_is_discarded : Prop :=
  forall (now : time.Time) (st : State) (id : uuid.UUID) (car : Car),
    cars st !! id = Some car ->
    (length (Track car) < 2)%nat \/ elapsed car = 0%Z ->
    discarded st id (removeCar now st id).

(** A position is degenerate when the program refuses to record it. *)
Definition degenerate (p : image.Point) : Prop :=
  (image.X p <= 0)%Z \/ (image.Y p <= 0)%Z.

(** "Refinement tracker failure (or a degenerate position): the
    trajectory is not extended, and the object stays in the live set." *)
Definition refinement_failure_stalls_trajectory : Prop :=
  forall (f : Frame) (register : gmap uuid.UUID Car) (i : uuid.UUID) (car : Car),
    register !! i = Some car ->
    snd (Update f (Tracker car)) = false \/ degenerate (center (fst (Update f (Tracker car)))) ->
    updateCar f register i !! i = Some car.

(** ** Auxiliary definitions and sample inputs *)

(** The loop of [SpaceTimeTravelled], on its own. *)
Definition loop_distance (track : list CarTrack) : R :=
  fold_left
    (fun distance i =>
       distance + distanceBetweenPoints (point_at track i) (point_at track (i + 1)))
    (seq 0 (length track - 2)) 0.

(** The representative snapshot: the one of the point at index [len/2]. *)
Definition middle_snapshot (c : Car) : gocv.Mat :=
  Mat (nth (length (Track c) / 2) (Track c) zeroCarTrack).

(** The record [removeCar] sends for a car. *)
Definition record_of (now : time.Time) (id : uuid.UUID) (c : Car) : CarMessage :=
  MkCarMessage id (mph (pixel_distance c) (elapsed c)) (ft (pixel_distance c)) now.

(** The state after a finalization that emits. *)
Definition emit (now : time.Time) (st : State) (id : uuid.UUID) (c : Car) : State :=
  MkState (delete id (cars st))
          (emitted st ++ [S3PutObject id (middle_snapshot c); ChanSend (record_of now id c)]).

(** A car with three points on one row, the first segment 600 pixels long,
    stamped [t0], [t1], [t2]. *)
Definition three_point_car (t0 t1 t2 : time.Time) : Car :=
  MkCar [ MkCarTrack (blob.MkTrackPoint (image.Pt 1 1) t0) 11%N;
          MkCarTrack (blob.MkTrackPoint (image.Pt 601 1) t1) 12%N;
          MkCarTrack (blob.MkTrackPoint (image.Pt 602 1) t2) 13%N ] 0%N.

(** Its three points carry one and the same timestamp. *)
Definition frozen_clock_car : Car := three_point_car 5%Z 5%Z 5%Z.

(** It crosses the frame in two seconds. *)
Definition crossing_car : Car := three_point_car 0%Z 1000000000%Z 2000000000%Z.

(** A car with a single point. *)
Definition one_point_car : Car :=
  MkCar [ MkCarTrack (blob.MkTrackPoint (image.Pt 320 100) 5%Z) 11%N ] 0%N.

(** The records among the events. *)
Definition sent (events : list Event) : list CarMessage :=
  flat_map (fun e => match e with ChanSend msg => [msg] | S3PutObject _ _ => [] end) events.

(** A frame in which the tracker of the one live object reports failure
    and still returns the box (10,10)-(20,20). *)
Definition failed_update_frame : Frame :=
  MkFrame [3%N] [] (fun id => id)
          (fun _ => (image.Rect (image.Pt 10 10) (image.Pt 20 20), false))
          (fun id => (100 + id)%N) 5%Z [3%N].

(** A frame in which the tracker of the one live object returns the empty
    box at the origin. *)
Definition lost_update_frame : Frame :=
  MkFrame [3%N] [] (fun id => id)
          (fun _ => (image.Rect (image.Pt 0 0) (image.Pt 0 0), false))
          (fun id => (100 + id)%N) 5%Z [3%N].

(** The first frame in which the tracker sees objects, [n] of them at
    once: all new, all present in [tracker.Objects], each refined to the
    box (100,50)-(140,70). *)
Definition first_sight_frame (ids : list N) : Frame :=
  MkFrame ids ids (fun id => id)
          (fun _ => (image.Rect (image.Pt 100 50) (image.Pt 140 70), true))
          (fun id => (100 + id)%N) 5%Z ids.

(** The car of object [id] after the update loop of that frame. *)
Definition first_sight_car (id : N) : Car :=
  MkCar [MkCarTrack (blob.MkTrackPoint (image.Pt 120 60) 5%Z) (100 + id)%N] id.

(** ** The remaining helpers of the program *)

Module Uint8.
(** Go [uint8] arithmetic wraps modulo 256. *)
Definition wrap (z : Z) : Z := (z mod 256)%Z.
Definition add (a b : Z) : Z := wrap (a + b).
End Uint8.

(** [uuidin(a, list)]: the loop returns at the first element equal to
    [a]. *)
Fixpoint uuidin (a : uuid.UUID) (l : list uuid.UUID) : bool :=
  match l with
  | [] => false
  | b :: rest => if (b =? a)%N then true else uuidin a rest
  end.

(** A [BackgroundMask]: the channels of the mask image; channel [k] read
    at row [r], column [c] ([bm.mask[k].GetUCharAt(r, c)], a [uint8]) is
    [nth k] of the list applied to [r] and [c]. *)
Record BackgroundMask : Type := MkBackgroundMask
  { mask : list (Z -> Z -> Z) }.

(** [bm.isInsideMask(c)], on the bounding rectangle [rect] of the contour
    ([gocv.BoundingRect(c)]).  The three bytes are added in [uint8];
    indexing a channel that is not there panics. *)
Definition isInsideMask (bm : BackgroundMask) (rect : image.Rectangle) : result bool :=
  let center := center rect in
  match mask bm !! 0%nat, mask bm !! 1%nat, mask bm !! 2%nat with
  | Some mask0, Some mask1, Some mask2 =>
      let maskR := mask0 (image.Y center) (image.X center) in
      let maskG := mask1 (image.Y center) (image.X center) in
      let maskB := mask2 (image.Y center) (image.X center) in
      Ok (Uint8.add (Uint8.add maskR maskG) maskB >? 0)%Z
  | _, _, _ => Panic
  end.

(** [writeMatToBytes(mat)].  [ToImage] is [mat.ToImage()]; [Encode] gives
    the bytes [jpeg.Encode] writes and its error.  The buffer [b] starts
    from the contents of [buf] and grows on its own; [buf] itself is what
    the function returns. *)
Definition writeMatToBytes {Image : Type}
    (ToImage : gocv.Mat -> Image * option error)
    (Encode : Image -> list Z * option error)
    (mat : gocv.Mat) : list Z * option error :=
  let buf : list Z := [] in
  let '(target, err) := ToImage mat in
  match err with
  | Some e => (buf, Some e)
  | None =>
      let b := buf in
      let '(written, err) := Encode target in
      let b := b ++ written in
      match err with
      | Some e => (buf, Some e)
      | None => (buf, None)
      end
  end.

(** Every coordinate of the point fits in 32 bits, as the pixel
    coordinates the vision library hands out do. *)
Definition small_point (p : image.Point) : Prop :=
  (- 2 ^ 31 <= image.X p < 2 ^ 31)%Z /\ (- 2 ^ 31 <= image.Y p < 2 ^ 31)%Z.

(** The timestamps of a track, in order. *)
Definition timestamps (track : list CarTrack) : list time.Time :=
  map (fun t => blob.Created (TrackPoint t)) track.

(** Every record among the events reports at least the 60 units the
    program asks for. *)
Definition records_pass_threshold (events : list Event) : Prop :=
  Forall (fun e => match e with
                   | ChanSend msg => 60 <= Distance msg
                   | S3PutObject _ _ => True
                   end) events.

(** Both coordinates of every point of every live track are positive. *)
Definition positive_point (p : image.Point) : Prop :=
  (0 < image.X p)%Z /\ (0 < image.Y p)%Z.

Definition tracks_positive (register : gmap uuid.UUID Car) : Prop :=
  map_Forall (fun _ car => Forall positive_point (trajectory_points car)) register.

(** The loop of [main] over the frames read from the stream, until the
    stream closes; an iteration that panics ends the program. *)
Definition mainLoop (frames : list Frame) (st : State) : result State :=
  for_range (fun st f => frameStep f st) frames st.

(** A frame in which the tracker holds nothing any more, while the objects
    [ids] are still in the register. *)
Definition scene_clear_frame (ids : list N) : Frame :=
  MkFrame [] [] (fun id => id)
          (fun _ => (image.Rect (image.Pt 0 0) (image.Pt 0 0), false))
          (fun id => (100 + id)%N) 6%Z ids.

(** The point the update loop appends for a car in a frame, with its
    snapshot. *)
Definition refined_center (f : Frame) (car : Car) : image.Point :=
  center (fst (Update f (Tracker car))).

Definition extended (f : Frame) (i : uuid.UUID) (car : Car) : Car :=
  MkCar (Track car ++
           [MkCarTrack (blob.NewTrackPoint (now f) (refined_center f car)) (frameClone f i)])
        (Tracker car).

(** The records the finalization of [id] sends: one if the car is live
    and passes the threshold, none otherwise. *)
Definition records_for (now : time.Time) (register : gmap uuid.UUID Car) (id : uuid.UUID)
  : list CarMessage :=
  match register !! id with
  | Some car => if Rle_dec 60 (ft (pixel_distance car)) then [record_of now id car] else []
  | None => []
  end.

(** [carIDs] lists the keys of the register, each once: what ranging over
    a map yields. *)
Definition lists_keys (ids : list uuid.UUID) (register : gmap uuid.UUID Car) : Prop :=
  NoDup ids /\ forall id, In id ids <-> is_Some (register !! id).

(** The figures of the worked example of the design document (field of
    view 112, distance 49.5, width 640, 45 pixels in one second), each
    read to the last digit it prints: 146.9, 0.2296, 10.33 and 7.04. *)
Definition spec_example_figures : Prop :=
  Rabs (frame_width - 146.9) <= 0.05 /\
  Rabs (ftperpixel - 0.2296) <= 0.00005 /\
  Rabs (ft 45 - 10.33) <= 0.005 /\
  Rabs (mph 45 1000000000%Z - 7.04) <= 0.005.

(** A car that crossed 600 pixels between its two points, in one second. *)
Definition two_point_car : Car :=
  MkCar [ MkCarTrack (blob.MkTrackPoint (image.Pt 1 1) 0%Z) 11%N;
          MkCarTrack (blob.MkTrackPoint (image.Pt 601 1) 1000000000%Z) 12%N ] 0%N.

(** * Properties *)

(** ** padRect *)

(** C10 (evaluation at the failing input): padding the in-frame rectangle
    (10,10)-(100,470) by 20 gives Max = (479, 490): the clamp on [max.Y]
    overwrites [max.X] and leaves [max.Y] above 479, so the result is not
    within the frame bounds. *)
Lemma padRect_maxY_escapes :
  in_frame (image.Rect (image.Pt 10 10) (image.Pt 100 470)) /\
  padRect (image.Rect (image.Pt 10 10) (image.Pt 100 470)) 20
    = image.Rect (image.Pt 0 0) (image.Pt 479 490) /\
  ~ within_bounds (padRect (image.Rect (image.Pt 10 10) (image.Pt 100 470)) 20).
Proof.
  split; [ unfold in_frame; simpl; lia | ].
  split; [ vm_compute; reflexivity | ].
  unfold within_bounds. vm_compute. intros (_ & _ & _ & H). apply H. reflexivity.
Qed.

(** ** Numeric enclosures for the camera geometry *)

Section Enclosures.

Lemma PI_enclosure : 3.14159 < PI < 3.1416.
Proof.
  pose proof (PI_2_3_7_ineq 2) as [Hlo Hhi].
  unfold PI_2_3_7_tg, tg_alt, Ratan_seq in Hlo, Hhi.
  cbn [sum_f_R0 Nat.mul Nat.add pow INR] in Hlo, Hhi.
  split; lra.
Qed.

Lemma INR_fact_S (n : nat) : INR (fact (S n)) = INR (S n) * INR (fact n).
Proof. rewrite fact_simpl, mult_INR. reflexivity. Qed.

(** Unfold a partial sum of the sine or cosine series into a rational
    expression, keeping the factorials as products. *)
Ltac expand_series H :=
  unfold sin_approx, sin_term, cos_approx, cos_term in H;
  cbn [sum_f_R0 Nat.mul Nat.add] in H;
  rewrite ?INR_fact_S in H;
  cbn [fact INR pow] in H.

Lemma sin_cos_below : 0.829035 <= sin 0.97738 /\ 0 < cos 0.97738 <= 0.559197.
Proof.
  destruct (pre_sin_bound 0.97738 2) as [Hs _]; [lra | lra |].
  destruct (pre_cos_bound 0.97738 2) as [Hcl Hc]; [lra | lra |].
  expand_series Hs. expand_series Hcl. expand_series Hc.
  repeat split; lra.
Qed.

Lemma sin_cos_above : sin 0.97739 <= 0.829041 /\ 0.559188 <= cos 0.97739.
Proof.
  destruct (pre_sin_bound 0.97739 2) as [_ Hs]; [lra | lra |].
  destruct (pre_cos_bound 0.97739 2) as [Hc _]; [lra | lra |].
  expand_series Hs. expand_series Hc.
  split; lra.
Qed.

Lemma tan_half_fov_enclosure : 1.482545 < tan (degToRad (fov * 0.5)) < 1.482581.
Proof.
  pose proof PI_enclosure as [Hpl Hph].
  destruct sin_cos_below as (Hs1 & Hc1p & Hc1).
  destruct sin_cos_above as (Hs2 & Hc2).
  assert (Ha : 1.482545 < tan 0.97738).
  { unfold tan. apply Rmult_lt_reg_r with (cos 0.97738); [exact Hc1p|].
    unfold Rdiv. rewrite Rmult_assoc, Rinv_l by lra. nra. }
  assert (Hb : tan 0.97739 < 1.482581).
  { unfold tan. apply Rmult_lt_reg_r with (cos 0.97739); [lra|].
    unfold Rdiv. rewrite Rmult_assoc, Rinv_l by lra. nra. }
  unfold degToRad, fov. split.
  - apply Rlt_trans with (tan 0.97738); [exact Ha|].
    apply tan_increasing; lra.
  - apply Rlt_trans with (tan 0.97739); [|exact Hb].
    apply tan_increasing; lra.
Qed.

Lemma frame_width_enclosure : 146.7719 < frame_width < 146.776.
Proof.
  pose proof tan_half_fov_enclosure as [Hl Hu].
  unfold frame_width, frame_width_of, distance_to_road. split; lra.
Qed.

Lemma ftperpixel_enclosure : 0.22933 < ftperpixel < 0.22934.
Proof.
  pose proof frame_width_enclosure as [Hl Hu].
  unfold ftperpixel, ftperpixel_of, image_width. split; lra.
Qed.

Lemma ft_0 : ft 0 = 0.
Proof. unfold ft, ft_of. ring. Qed.

End Enclosures.

(** ** The speed computation *)

(** C9: the unit conversion is scale-consistent: for every frame width in
    pixels, physical frame width and pixel distance, doubling the physical
    frame width while halving the pixel distance leaves the physical
    distance unchanged. *)
Theorem conversion_scale_consistent :
  forall frameWidthPixels frameWidthPhysical d : R,
    ft_of frameWidthPixels (2 * frameWidthPhysical) (d / 2)
    = ft_of frameWidthPixels frameWidthPhysical d
    /\ (2 * frameWidthPhysical / frameWidthPixels) * (d / 2)
       = (frameWidthPhysical / frameWidthPixels) * d.
Proof.
  intros w fw d. unfold ft_of, ftperpixel_of, Rdiv.
  generalize (/ w). intros iw. split; field.
Qed.

(** ** Trajectories *)

Section Trajectory.

Lemma hypot_3_4 : sqrt (Rabs 3 ^ 2 + Rabs 4 ^ 2) = 5.
Proof.
  rewrite !Rabs_pos_eq by lra.
  replace (3 ^ 2 + 4 ^ 2) with (5 ^ 2) by lra.
  apply sqrt_pow2. lra.
Qed.

Lemma distance_along_x (a : R) : 0 <= a -> sqrt (Rabs a ^ 2 + Rabs 0 ^ 2) = a.
Proof.
  intros Ha. rewrite Rabs_R0, Rabs_pos_eq by exact Ha.
  replace (a ^ 2 + 0 ^ 2) with (a ^ 2) by ring.
  apply sqrt_pow2. exact Ha.
Qed.

Lemma fold_sum_acc (g : nat -> R) (l : list nat) (a : R) :
  fold_left (fun acc i => acc + g i) l a
  = a + fold_left (fun acc i => acc + g i) l 0.
Proof.
  revert a. induction l as [|i l IH]; intros a; simpl.
  - ring.
  - rewrite (IH (a + g i)), (IH (0 + g i)). ring.
Qed.

Lemma fold_sum_seq_shift (g : nat -> R) (n s : nat) (a : R) :
  fold_left (fun acc i => acc + g i) (seq (S s) n) a
  = fold_left (fun acc i => acc + g (S i)) (seq s n) a.
Proof.
  revert s a. induction n as [|n IH]; intros s a; simpl.
  - reflexivity.
  - apply IH.
Qed.

(** The loop adds up the neighbour distances of the trajectory without
    its last point: the segment into the last point is never added. *)
Lemma loop_distance_removelast (track : list CarTrack) :
  loop_distance track
  = consecutive_distance_sum
      (removelast (map (fun t => blob.Point (TrackPoint t)) track)).
Proof.
  induction track as [|a track IH]; [reflexivity|].
  destruct track as [|b track]; [reflexivity|].
  destruct track as [|c track]; [reflexivity|].
  unfold loop_distance in *.
  cbn [length Nat.sub] in IH |- *. rewrite Nat.sub_0_r in IH.
  cbn [seq fold_left].
  rewrite fold_sum_acc, fold_sum_seq_shift.
  change (fun acc i =>
            acc + distanceBetweenPoints (point_at (a :: b :: c :: track) (S i))
                                        (point_at (a :: b :: c :: track) (S i + 1)))
    with (fun acc i =>
            acc + distanceBetweenPoints (point_at (b :: c :: track) i)
                                        (point_at (b :: c :: track) (i + 1))).
  rewrite IH.
  change (map (fun t => blob.Point (TrackPoint t)) (a :: b :: c :: track))
    with (blob.Point (TrackPoint a) :: blob.Point (TrackPoint b)
            :: map (fun t => blob.Point (TrackPoint t)) (c :: track)).
  change (map (fun t => blob.Point (TrackPoint t)) (b :: c :: track))
    with (blob.Point (TrackPoint b)
            :: map (fun t => blob.Point (TrackPoint t)) (c :: track)).
  cbn [map removelast consecutive_distance_sum].
  unfold point_at. cbn [nth Nat.add]. ring.
Qed.

Lemma pixel_distance_removelast (c : Car) :
  pixel_distance c = consecutive_distance_sum (removelast (trajectory_points c)).
Proof.
  unfold pixel_distance, SpaceTimeTravelled, trajectory_points.
  destruct (Track c) as [|a track] eqn:E; [reflexivity|].
  cbn [length Nat.eqb fst snd].
  rewrite <- loop_distance_removelast. reflexivity.
Qed.

(** With fewer than three points the loop body never runs. *)
Lemma pixel_distance_short (c : Car) :
  (length (Track c) < 3)%nat -> pixel_distance c = 0.
Proof.
  intros H. unfold pixel_distance, SpaceTimeTravelled.
  destruct (Track c) as [|a [|b [|x track]]]; simpl in *; try reflexivity; lia.
Qed.

(** Every index [SpaceTimeTravelled] reads is inside the slice. *)
Lemma SpaceTimeTravelled_in_range (c : Car) (i : nat) :
  In i (seq 0 (length (Track c) - 2)) ->
  (i < length (Track c))%nat /\ (i + 1 < length (Track c))%nat.
Proof. rewrite in_seq. lia. Qed.

(** The index [MiddleMat] reads is inside the slice. *)
Lemma MiddleMat_in_range (c : Car) :
  length (Track c) <> 0%nat -> (length (Track c) / 2 < length (Track c))%nat.
Proof. intros H. apply Nat.div_lt; lia. Qed.

End Trajectory.

(** C1 (evaluation at the failing input): for the two-point trajectory
    (0,0), (3,4) the sum of the distances between consecutive points is 5,
    its single segment, while the distance [SpaceTimeTravelled] returns is
    0: the loop stops at [len-2] and leaves the last segment out. *)
Lemma SpaceTimeTravelled_drops_last_segment :
  let c := MkCar [ MkCarTrack (blob.MkTrackPoint (image.Pt 0 0) 0%Z) 1%N;
                   MkCarTrack (blob.MkTrackPoint (image.Pt 3 4) 1000000000%Z) 2%N ] 0%N in
  consecutive_distance_sum (trajectory_points c) = 5 /\
  SpaceTimeTravelled c = (0, 1000000000%Z, None) /\
  pixel_distance c <> consecutive_distance_sum (trajectory_points c).
Proof.
  intros c.
  assert (Hsum : consecutive_distance_sum (trajectory_points c) = 5).
  { unfold c, trajectory_points. cbn [map Track TrackPoint blob.Point consecutive_distance_sum].
    unfold distanceBetweenPoints. cbn [image.X image.Y].
    change (Int.sub 0 3) with (-3)%Z. change (Int.sub 0 4) with (-4)%Z.
    rewrite !Rplus_0_r.
    replace (Rabs (-3)) with (Rabs 3) by (rewrite <- Rabs_Ropp; f_equal; lra).
    replace (Rabs (-4)) with (Rabs 4) by (rewrite <- Rabs_Ropp; f_equal; lra).
    apply hypot_3_4. }
  assert (Hcode : SpaceTimeTravelled c = (0, 1000000000%Z, None)) by reflexivity.
  split; [exact Hsum|]. split; [exact Hcode|].
  unfold pixel_distance. rewrite Hcode, Hsum. cbn [fst]. lra.
Qed.

(** ** Finalization: removeCar *)

Section RemoveCar.

Variables (now : time.Time) (st : State) (id : uuid.UUID) (car : Car).
Hypothesis Hlive : cars st !! id = Some car.

(** [removeCar] on a live object, case by case on the threshold. *)
Lemma removeCar_live :
  removeCar now st id
  = if Rle_dec 60 (ft (pixel_distance car))
    then Ok (emit now st id car)
    else Ok (MkState (delete id (cars st)) (emitted st)).
Proof.
  unfold removeCar. rewrite Hlive.
  unfold emit, record_of, middle_snapshot, pixel_distance, elapsed.
  unfold SpaceTimeTravelled, MiddleMat.
  destruct (Track car) as [|a track] eqn:E.
  - cbn [length Nat.eqb fst snd]. rewrite ft_0.
    destruct (Rle_dec 60 0) as [H|H]; [lra | reflexivity].
  - cbn [length Nat.eqb fst snd]. reflexivity.
Qed.

Lemma removeCar_emits :
  60 <= ft (pixel_distance car) -> removeCar now st id = Ok (emit now st id car).
Proof.
  intros H. rewrite removeCar_live.
  destruct (Rle_dec 60 (ft (pixel_distance car))); [reflexivity | contradiction].
Qed.

Lemma removeCar_discards :
  ft (pixel_distance car) < 60 -> discarded st id (removeCar now st id).
Proof.
  intros H. unfold discarded. rewrite removeCar_live.
  destruct (Rle_dec 60 (ft (pixel_distance car))); [lra | reflexivity].
Qed.

Lemma removeCar_short_track :
  (length (Track car) < 3)%nat -> discarded st id (removeCar now st id).
Proof.
  intros H. apply removeCar_discards.
  rewrite pixel_distance_short by exact H. rewrite ft_0. lra.
Qed.

End RemoveCar.

(** [removeCar] on an object that is not in the register panics. *)
Lemma removeCar_absent (now : time.Time) (st : State) (id : uuid.UUID) :
  cars st !! id = None -> removeCar now st id = Panic.
Proof. intros H. unfold removeCar. rewrite H. reflexivity. Qed.

Lemma three_point_car_distance (t0 t1 t2 : time.Time) :
  pixel_distance (three_point_car t0 t1 t2) = 600.
Proof.
  unfold pixel_distance, three_point_car, SpaceTimeTravelled.
  cbn [Track length Nat.eqb Nat.sub seq fold_left fst].
  unfold point_at. cbn [nth Nat.add TrackPoint blob.Point].
  unfold distanceBetweenPoints. cbn [image.X image.Y].
  change (Int.sub 1 601) with (-600)%Z. change (Int.sub 1 1) with 0%Z.
  replace (Rabs (-600)) with (Rabs 600) by (rewrite <- Rabs_Ropp; f_equal; lra).
  rewrite distance_along_x by lra. lra.
Qed.

Lemma three_point_car_passes (t0 t1 t2 : time.Time) :
  60 <= ft (pixel_distance (three_point_car t0 t1 t2)).
Proof.
  rewrite three_point_car_distance.
  pose proof ftperpixel_enclosure as [Hl _].
  change (ft 600) with (600 * ftperpixel). lra.
Qed.

Lemma frozen_clock_car_elapsed : elapsed frozen_clock_car = 0%Z.
Proof. reflexivity. Qed.

(** C4 (counterexample): the claim that a trajectory of fewer than 2
    points or of zero elapsed duration is always discarded fails: the car
    whose three points share one timestamp has elapsed duration 0, and
    [removeCar] emits a record for it (its speed is a division by that
    zero duration). *)
Lemma zero_duration_is_not_guarded : ~ insufficient_data_is_discarded.
Proof.
  intros Hclaim.
  specialize (Hclaim 0%Z (MkState {[ 7%N := frozen_clock_car ]} []) 7%N frozen_clock_car).
  assert (Hlive : cars (MkState {[ 7%N := frozen_clock_car ]} []) !! 7%N
                  = Some frozen_clock_car) by apply lookup_singleton_eq.
  specialize (Hclaim Hlive (or_intror frozen_clock_car_elapsed)).
  unfold discarded in Hclaim.
  rewrite (removeCar_emits _ _ _ _ Hlive (three_point_car_passes _ _ _)) in Hclaim.
  unfold emit in Hclaim. cbn [emitted app] in Hclaim. discriminate Hclaim.
Qed.

(** C4 (amended): an object whose trajectory has fewer than 2 points is
    discarded at finalization: it is removed from the live set, nothing is
    emitted, no speed is computed, and the outcome is an ordinary return,
    not a panic. *)
Theorem short_trajectory_is_discarded :
  forall (now : time.Time) (st : State) (id : uuid.UUID) (car : Car),
    cars st !! id = Some car ->
    (length (Track car) < 2)%nat ->
    removeCar now st id = Ok (MkState (delete id (cars st)) (emitted st)).
Proof.
  intros now st id car Hlive Hlen.
  apply (removeCar_short_track now st id car Hlive). lia.
Qed.

(** The one-point car is discarded. *)
Lemma short_trajectory_is_discarded_witness :
  let st := MkState {[ 7%N := one_point_car ]} [] in
  removeCar 9%Z st 7%N = Ok (MkState (delete 7%N (cars st)) (emitted st)).
Proof.
  intros st.
  apply (short_trajectory_is_discarded 9%Z st 7%N one_point_car).
  - reflexivity.
  - simpl. lia.
Defined.

Lemma sent_app (l1 l2 : list Event) : sent (l1 ++ l2) = sent l1 ++ sent l2.
Proof. unfold sent. apply flat_map_app. Qed.

(** The gate of [removeCar], on the distance it receives: at the
    finalization of a live object a record is emitted if and only if the
    pixel distance [SpaceTimeTravelled] returned, times [ftperpixel], is
    at least 60; below it nothing is emitted; at or above it exactly one
    record, carrying that distance and the speed, is sent; either way the
    object leaves the live set. *)
Theorem record_iff_threshold :
  forall (now : time.Time) (st : State) (id : uuid.UUID) (car : Car),
    cars st !! id = Some car ->
    let physical := pixel_distance car * ftperpixel in
    exists st' : State,
      removeCar now st id = Ok st' /\
      cars st' = delete id (cars st) /\
      ((60 <= physical /\
        sent (emitted st') = sent (emitted st) ++ [record_of now id car] /\
        Distance (record_of now id car) = physical)
       \/
       (physical < 60 /\ emitted st' = emitted st)).
Proof.
  intros now st id car Hlive physical.
  assert (Hphys : ft (pixel_distance car) = physical) by reflexivity.
  destruct (Rle_dec 60 physical) as [Hge | Hlt].
  - exists (emit now st id car). split; [|split].
    + apply removeCar_emits; [exact Hlive | rewrite Hphys; exact Hge].
    + reflexivity.
    + left. split; [exact Hge|]. split; [|exact Hphys].
      unfold emit. cbn [emitted]. rewrite sent_app. reflexivity.
  - exists (MkState (delete id (cars st)) (emitted st)). split; [|split].
    + apply (removeCar_discards now st id car Hlive). rewrite Hphys. lra.
    + reflexivity.
    + right. split; [lra | reflexivity].
Qed.

(** The crossing car, 600 pixels in two seconds, is above the threshold. *)
Lemma record_iff_threshold_witness :
  let st := MkState {[ 7%N := crossing_car ]} [] in
  let physical := pixel_distance crossing_car * ftperpixel in
  exists st' : State,
    removeCar 9%Z st 7%N = Ok st' /\
    cars st' = delete 7%N (cars st) /\
    ((60 <= physical /\
      sent (emitted st') = sent (emitted st) ++ [record_of 9%Z 7%N crossing_car] /\
      Distance (record_of 9%Z 7%N crossing_car) = physical)
     \/
     (physical < 60 /\ emitted st' = emitted st)).
Proof.
  intros st.
  apply (record_iff_threshold 9%Z st 7%N crossing_car).
  reflexivity.
Defined.

(** C5 (evaluation at the failing input): the car that crossed 600 pixels
    between its two points has a cumulative pixel distance of 600 and a
    physical distance above 137, well over the threshold of 60, and
    [removeCar] still discards it without a record: the distance it
    thresholds is the one [SpaceTimeTravelled] returns, which leaves the
    last segment out and is 0 here. *)
Lemma threshold_misses_last_segment :
  let st := MkState {[ 7%N := two_point_car ]} [] in
  consecutive_distance_sum (trajectory_points two_point_car) = 600 /\
  60 <= consecutive_distance_sum (trajectory_points two_point_car) * ftperpixel /\
  pixel_distance two_point_car = 0 /\
  removeCar 9%Z st 7%N = Ok (MkState (delete 7%N (cars st)) []).
Proof.
  intros st.
  assert (Hsum : consecutive_distance_sum (trajectory_points two_point_car) = 600).
  { unfold two_point_car, trajectory_points.
    cbn [map Track TrackPoint blob.Point consecutive_distance_sum].
    unfold distanceBetweenPoints. cbn [image.X image.Y].
    change (Int.sub 1 601) with (-600)%Z. change (Int.sub 1 1) with 0%Z.
    replace (Rabs (-600)) with (Rabs 600) by (rewrite <- Rabs_Ropp; f_equal; lra).
    rewrite distance_along_x by lra. lra. }
  pose proof ftperpixel_enclosure as [Hl _].
  split; [exact Hsum|]. split; [rewrite Hsum; lra|].
  split; [apply pixel_distance_short; simpl; lia|].
  apply (removeCar_short_track 9%Z st 7%N two_point_car); [reflexivity | simpl; lia].
Qed.

(** ** The speed computation, at the record *)

(** C6 (counterexample): the figures of the worked example do not hold
    to the digits they print: at field of view 112, distance 49.5 and
    width 640 the frame width is below 146.85, the units per pixel below
    0.22955 and the physical distance of 45 pixels below 10.325, so the
    figures 146.9, 0.2296 and 10.33 are each off in their last digit. *)
Lemma example_figures_are_off : ~ spec_example_figures.
Proof.
  intros (Hfw & _).
  pose proof frame_width_enclosure as [_ Hu].
  rewrite Rabs_minus_sym in Hfw.
  pose proof (Rle_abs (146.9 - frame_width)) as Habs. lra.
Qed.

(** C6 (amended): the speed computation of [removeCar] is
    frame_width = 2 * tan(fov/2 in radians) * distance_to_road,
    ftperpixel = frame_width / image_width, ft = distance * ftperpixel,
    mph = (ft / elapsed seconds) * 0.681818, the elapsed seconds being the
    nanoseconds of the duration divided by 10^9, and these are the
    distance and the speed of the record [removeCar] sends; at field of
    view 112, distance 49.5, width 640, 45 pixels and one second the four
    quantities are 146.8, 0.2293, 10.32 and 7.04, each to the last digit
    shown (over the reals). *)
Theorem speed_computation :
  frame_width = 2 * tan (112 / 2 * PI / 180) * 49.5 /\
  ftperpixel = frame_width / 640 /\
  (forall distance : R, ft distance = distance * ftperpixel) /\
  (forall (distance : R) (duration : time.Duration),
      mph distance duration
      = (ft distance / (IZR duration / 1000000000)) * 0.681818) /\
  (forall (now : time.Time) (st : State) (id : uuid.UUID) (car : Car),
      cars st !! id = Some car ->
      60 <= pixel_distance car * ftperpixel ->
      exists body : gocv.Mat,
        removeCar now st id
        = Ok (MkState (delete id (cars st))
                (emitted st ++
                   [S3PutObject id body;
                    ChanSend
                      (MkCarMessage id
                         ((pixel_distance car * ftperpixel
                           / (IZR (elapsed car) / 1000000000)) * 0.681818)
                         (pixel_distance car * ftperpixel)
                         now)]))) /\
  Rabs (frame_width - 146.8) <= 0.05 /\
  Rabs (ftperpixel - 0.2293) <= 0.00005 /\
  Rabs (ft 45 - 10.32) <= 0.005 /\
  Rabs (mph 45 1000000000%Z - 7.04) <= 0.005.
Proof.
  pose proof frame_width_enclosure as [Hfl Hfu].
  pose proof ftperpixel_enclosure as [Hpl Hpu].
  assert (Hft : ft 45 = 45 * ftperpixel) by reflexivity.
  assert (Hmph : mph 45 1000000000%Z = 45 * ftperpixel * 0.681818).
  { unfold mph, mph_of, time.Seconds. fold (ft 45). rewrite Hft. lra. }
  split; [|split; [|split; [|split; [|split]]]].
  - unfold frame_width, frame_width_of, degToRad, fov, distance_to_road.
    replace (112 * 0.5 * PI / 180) with (112 / 2 * PI / 180) by lra. ring.
  - reflexivity.
  - reflexivity.
  - reflexivity.
  - intros now st id car Hlive Hpass. exists (middle_snapshot car).
    apply (removeCar_emits now st id car Hlive Hpass).
  - repeat split; apply Rabs_le; lra.
Qed.

(** C8: when a live object with a non-empty trajectory of n points is
    finalized, [MiddleMat] yields the snapshot of the point at index n/2
    (integer division), and that snapshot is the image of every record
    the finalization emits: it is the body stored under the record's
    [ImageURI], and nothing else is stored. *)
Theorem snapshot_is_midpoint :
  forall (now : time.Time) (st st' : State) (id : uuid.UUID) (car : Car),
    cars st !! id = Some car ->
    Track car <> [] ->
    removeCar now st id = Ok st' ->
    let mid := Mat (nth (length (Track car) / 2) (Track car) zeroCarTrack) in
    MiddleMat car = (Some mid, None) /\
    exists new : list Event,
      emitted st' = emitted st ++ new /\
      (forall msg, In (ChanSend msg) new -> In (S3PutObject (ImageURI msg) mid) new) /\
      (forall key body, In (S3PutObject key body) new -> body = mid).
Proof.
  intros now st st' id car Hlive Hne Hrun mid. split.
  - unfold MiddleMat. destruct (Track car) as [|a track]; [contradiction | reflexivity].
  - rewrite (removeCar_live now st id car Hlive) in Hrun.
    destruct (Rle_dec 60 (ft (pixel_distance car))); injection Hrun as <-.
    + exists [S3PutObject id mid; ChanSend (record_of now id car)].
      split; [reflexivity|]. split.
      * intros msg [H | [H | []]]; [discriminate H|].
        injection H as <-. left. reflexivity.
      * intros key body [H | [H | []]]; [|discriminate H].
        injection H as _ <-. reflexivity.
    + exists []. split; [cbn [emitted]; rewrite app_nil_r; reflexivity|].
      split; intros ? ?; try intros ?; contradiction.
Qed.

(** The crossing car has three points; its record carries the snapshot
    of the second one (index 1). *)
Lemma snapshot_is_midpoint_witness :
  let st := MkState {[ 7%N := crossing_car ]} [] in
  MiddleMat crossing_car = (Some 12%N, None) /\
  exists new : list Event,
    emitted (emit 9%Z st 7%N crossing_car) = emitted st ++ new /\
    (forall msg, In (ChanSend msg) new -> In (S3PutObject (ImageURI msg) 12%N) new) /\
    (forall key body, In (S3PutObject key body) new -> body = 12%N).
Proof.
  intros st.
  apply (snapshot_is_midpoint 9%Z st (emit 9%Z st 7%N crossing_car) 7%N crossing_car).
  - reflexivity.
  - discriminate.
  - apply removeCar_emits; [reflexivity | apply three_point_car_passes].
Defined.

(** ** The tracking loop *)

Lemma degenerate_not_recorded (p : image.Point) :
  degenerate p -> (image.X p >? 0)%Z && (image.Y p >? 0)%Z = false.
Proof.
  intros [H | H]; apply andb_false_iff; [left | right];
    rewrite Z.gtb_ltb; apply Z.ltb_ge; exact H.
Qed.

(** One iteration of the update loop leaves an object with a degenerate
    refined position as it is, whichever object the iteration is for. *)
Lemma updateCar_keeps_degenerate (f : Frame) (register : gmap N Car) (i k : N) (car : Car) :
  register !! i = Some car ->
  degenerate (center (fst (Update f (Tracker car)))) ->
  updateCar f register k !! i = Some car.
Proof.
  intros Hlive Hdeg. unfold updateCar.
  destruct (register !! k) as [car'|] eqn:Hk; [|exact Hlive].
  destruct (decide (k = i)) as [-> | Hne].
  - rewrite Hlive in Hk. injection Hk as <-.
    destruct (Update f (Tracker car)) as [rect ok]. cbn [fst] in Hdeg.
    rewrite (degenerate_not_recorded _ Hdeg). exact Hlive.
  - destruct (Update f (Tracker car')) as [rect ok].
    destruct ((image.X (center rect) >? 0)%Z && (image.Y (center rect) >? 0)%Z);
      [rewrite lookup_insert_ne by exact Hne|]; exact Hlive.
Qed.

(** The update loop never changes which objects are live. *)
Lemma updateCar_dom (f : Frame) (register : gmap N Car) (k : N) :
  dom (updateCar f register k) = dom register.
Proof.
  unfold updateCar. destruct (register !! k) as [car|] eqn:Hk; [|reflexivity].
  destruct (Update f (Tracker car)) as [rect ok].
  destruct ((image.X (center rect) >? 0)%Z && (image.Y (center rect) >? 0)%Z);
    [|reflexivity].
  rewrite dom_insert_L. apply subseteq_union_1_L, singleton_subseteq_l.
  apply elem_of_dom. eauto.
Qed.

Lemma updateCars_dom (f : Frame) (register : gmap N Car) :
  dom (updateCars f register) = dom register.
Proof.
  unfold updateCars. generalize (Objects f). intros l. revert register.
  induction l as [|k l IH]; intros register; [reflexivity|].
  cbn [fold_left]. rewrite IH. apply updateCar_dom.
Qed.

(** C7 (counterexample): the claim that a failing refinement tracker
    leaves the trajectory as it is fails: with the failure flag set and
    the box (10,10)-(20,20) returned, the point (15,15) is appended to the
    empty trajectory of object 3. *)
Lemma failure_flag_is_ignored : ~ refinement_failure_stalls_trajectory.
Proof.
  intros Hclaim.
  specialize (Hclaim failed_update_frame {[ 3%N := MkCar [] 0%N ]} 3%N (MkCar [] 0%N)).
  assert (Hrun : updateCar failed_update_frame {[ 3%N := MkCar [] 0%N ]} 3%N !! 3%N
                 = Some (MkCar [MkCarTrack (blob.MkTrackPoint (image.Pt 15 15) 5%Z) 103%N] 0%N))
    by reflexivity.
  rewrite Hrun in Hclaim.
  assert (H : Some (MkCar [MkCarTrack (blob.MkTrackPoint (image.Pt 15 15) 5%Z) 103%N] 0%N)
              = Some (MkCar [] 0%N)).
  { apply Hclaim; [reflexivity | left; reflexivity]. }
  discriminate H.
Qed.

(** C7 (amended): in a frame in which the refinement tracker of a live
    object returns a degenerate position (a centre with a coordinate that
    is not positive), the update loop does not extend that object's
    trajectory, and the object stays in the live set; the update loop
    never changes which objects are live. *)
Theorem degenerate_position_stalls_trajectory :
  forall (f : Frame) (register : gmap N Car) (i : N) (car : Car),
    register !! i = Some car ->
    degenerate (center (fst (Update f (Tracker car)))) ->
    updateCars f register !! i = Some car /\
    dom (updateCars f register) = dom register.
Proof.
  intros f register i car Hlive Hdeg. split; [|apply updateCars_dom].
  unfold updateCars. generalize (Objects f). intros l. revert register Hlive.
  induction l as [|k l IH]; intros register Hlive; [exact Hlive|].
  cbn [fold_left]. apply IH. apply updateCar_keeps_degenerate; assumption.
Qed.

(** The empty box at the origin has the degenerate centre (0,0). *)
Lemma degenerate_position_stalls_trajectory_witness :
  updateCars lost_update_frame {[ 3%N := one_point_car ]} !! 3%N = Some one_point_car /\
  dom (updateCars lost_update_frame {[ 3%N := one_point_car ]})
  = dom ({[ 3%N := one_point_car ]} : gmap N Car).
Proof.
  apply (degenerate_position_stalls_trajectory lost_update_frame
           {[ 3%N := one_point_car ]} 3%N one_point_car).
  - reflexivity.
  - left. vm_compute. discriminate.
Defined.

Lemma first_sight_car_discarded (now : time.Time) (st : State) (id : N) :
  cars st !! id = Some (first_sight_car id) ->
  removeCar now st id = Ok (MkState (delete id (cars st)) (emitted st)).
Proof.
  intros Hlive. apply (removeCar_short_track now st id _ Hlive). simpl. lia.
Qed.

(** C2 (evaluation at the failing input): in the frame in which objects 1
    and 2 are both present in the tracker's identity set, the iteration
    finalizes both and leaves the live set empty: the inner loop calls
    [removeCar] for an object as soon as the tracker holds any other
    object, present or not. *)
Lemma present_objects_are_finalized :
  let f := first_sight_frame [1%N; 2%N] in
  In 1%N (Objects f) /\ In 2%N (Objects f) /\
  updateCars f (registerNew f ∅)
  = <[ 1%N := first_sight_car 1 ]> (<[ 2%N := first_sight_car 2 ]> ∅) /\
  frameStep f (MkState ∅ []) = Ok (MkState ∅ []).
Proof.
  intros f.
  assert (Hreg : updateCars f (registerNew f ∅)
                 = <[ 1%N := first_sight_car 1 ]> (<[ 2%N := first_sight_car 2 ]> ∅))
    by (vm_compute; reflexivity).
  split; [left; reflexivity|]. split; [right; left; reflexivity|].
  split; [exact Hreg|].
  unfold frameStep. cbn [cars emitted]. rewrite Hreg.
  unfold finalize.
  change (length (Objects f) =? 0)%nat with false. cbn [andb].
  change (carIDs f) with [1%N; 2%N]. change (Objects f) with [1%N; 2%N].
  cbn [for_range bind removeUnlessSame N.eqb Pos.eqb].
  rewrite first_sight_car_discarded by reflexivity.
  cbn [for_range bind removeUnlessSame N.eqb Pos.eqb cars emitted].
  rewrite first_sight_car_discarded by reflexivity.
  cbn [cars emitted]. reflexivity.
Qed.

(** C3 (evaluation at the failing input): in the frame in which the
    tracker holds objects 1, 2 and 3, [removeCar] is called for object 1
    once for object 2 and once more for object 3; the second call finds
    [register[1]] gone and dereferences the nil car: the iteration panics.
    So does any second [removeCar] on an identifier. *)
Lemma repeated_finalization_panics :
  frameStep (first_sight_frame [1%N; 2%N; 3%N]) (MkState ∅ []) = Panic /\
  bind (removeCar 9%Z (MkState {[ 7%N := one_point_car ]} []) 7%N)
       (fun st' => removeCar 9%Z st' 7%N) = Panic.
Proof.
  split.
  - set (f := first_sight_frame [1%N; 2%N; 3%N]).
    assert (Hreg : updateCars f (registerNew f ∅)
                   = <[ 1%N := first_sight_car 1 ]>
                       (<[ 2%N := first_sight_car 2 ]>
                          (<[ 3%N := first_sight_car 3 ]> ∅)))
      by (vm_compute; reflexivity).
    unfold frameStep. cbn [cars emitted]. rewrite Hreg.
    unfold finalize.
    change (length (Objects f) =? 0)%nat with false. cbn [andb].
    change (carIDs f) with [1%N; 2%N; 3%N]. change (Objects f) with [1%N; 2%N; 3%N].
    cbn [for_range bind removeUnlessSame N.eqb Pos.eqb].
    rewrite first_sight_car_discarded by reflexivity.
    cbn [for_range bind removeUnlessSame N.eqb Pos.eqb cars emitted].
    rewrite removeCar_absent by reflexivity.
    reflexivity.
  - rewrite (removeCar_short_track 9%Z _ 7%N one_point_car) by (reflexivity || (simpl; lia)).
    cbn [bind]. apply removeCar_absent. reflexivity.
Qed.

(** * Further properties of the code *)

(** ** Machine integers *)

Lemma Int_wrap_small (z : Z) :
  (- 2 ^ 63 <= z < 2 ^ 63)%Z -> Int.wrap z = z.
Proof.
  intros H. unfold Int.wrap, Int.half_modulus, Int.modulus.
  change (2 ^ 63)%Z with 9223372036854775808%Z in *.
  change (2 ^ 64)%Z with 18446744073709551616%Z.
  rewrite Z.mod_small by lia. lia.
Qed.

Lemma Int_sub_abs_sym (a b : Z) : Z.abs (Int.sub a b) = Z.abs (Int.sub b a).
Proof.
  unfold Int.sub, Int.wrap, Int.half_modulus, Int.modulus.
  change (2 ^ 63)%Z with 9223372036854775808%Z.
  change (2 ^ 64)%Z with 18446744073709551616%Z.
  Z.div_mod_to_equations. lia.
Qed.

(** ** distanceBetweenPoints *)

Lemma distance_as_hypot (p q : image.Point) :
  distanceBetweenPoints p q
  = sqrt (IZR (Int.sub (image.X p) (image.X q)) ^ 2
          + IZR (Int.sub (image.Y p) (image.Y q)) ^ 2).
Proof.
  unfold distanceBetweenPoints. cbv zeta. f_equal.
  rewrite <- !Rsqr_pow2, <- !Rsqr_abs. reflexivity.
Qed.

(** X1: the distance between two points does not depend on their order,
    whatever the coordinates (also where the subtraction wraps). *)
Theorem distanceBetweenPoints_sym :
  forall p q : image.Point, distanceBetweenPoints p q = distanceBetweenPoints q p.
Proof.
  intros p q. unfold distanceBetweenPoints. cbv zeta.
  rewrite <- !abs_IZR.
  rewrite (Int_sub_abs_sym (image.X p) (image.X q)).
  rewrite (Int_sub_abs_sym (image.Y p) (image.Y q)).
  reflexivity.
Qed.

Lemma Int_sub_small (a b : Z) :
  (- 2 ^ 31 <= a < 2 ^ 31)%Z -> (- 2 ^ 31 <= b < 2 ^ 31)%Z -> Int.sub a b = (a - b)%Z.
Proof.
  intros Ha Hb. unfold Int.sub. apply Int_wrap_small.
  change (2 ^ 31)%Z with 2147483648%Z in *.
  change (2 ^ 63)%Z with 9223372036854775808%Z. lia.
Qed.

(** X2: the distance is never negative, and between points with 32-bit
    coordinates it is zero exactly when the two points are the same. *)
Theorem distanceBetweenPoints_zero_iff :
  forall p q : image.Point,
    small_point p -> small_point q ->
    0 <= distanceBetweenPoints p q /\
    (distanceBetweenPoints p q = 0 <-> p = q).
Proof.
  intros [px py] [qx qy] [Hpx Hpy] [Hqx Hqy]. cbn [image.X image.Y] in *.
  split; [unfold distanceBetweenPoints; apply sqrt_pos|].
  rewrite distance_as_hypot. cbn [image.X image.Y].
  rewrite !Int_sub_small by assumption.
  split.
  - intros H. apply sqrt_eq_0 in H; [|nra].
    assert (Hx : IZR (px - qx) = 0) by nra.
    assert (Hy : IZR (py - qy) = 0) by nra.
    apply eq_IZR_R0 in Hx. apply eq_IZR_R0 in Hy.
    f_equal; lia.
  - intros H. injection H as -> ->. rewrite !Z.sub_diag.
    replace (0 ^ 2 + 0 ^ 2) with 0 by ring. apply sqrt_0.
Qed.

(** The points (3,4) and (3,4) are the same; both are small. *)
Lemma distanceBetweenPoints_zero_iff_witness :
  0 <= distanceBetweenPoints (image.Pt 3 4) (image.Pt 3 4) /\
  (distanceBetweenPoints (image.Pt 3 4) (image.Pt 3 4) = 0
   <-> image.Pt 3 4 = image.Pt 3 4).
Proof.
  apply (distanceBetweenPoints_zero_iff (image.Pt 3 4) (image.Pt 3 4));
    unfold small_point; simpl; lia.
Defined.

(** ** Car.SpaceTimeTravelled and Car.MiddleMat *)

Lemma nth_pred_length_last {A : Type} (l : list A) (d : A) :
  nth (length l - 1) l d = List.last l d.
Proof.
  induction l as [|a l IH]; [reflexivity|].
  destruct l as [|b l]; [reflexivity|].
  cbn [length Nat.sub] in IH |- *. rewrite Nat.sub_0_r in IH.
  change (nth (S (length l)) (a :: b :: l) d) with (nth (length l) (b :: l) d).
  rewrite IH. reflexivity.
Qed.

Lemma last_map_default {A B : Type} (f : A -> B) (l : list A) (d : A) :
  List.last (map f l) (f d) = f (List.last l d).
Proof.
  induction l as [|a l IH]; [reflexivity|].
  destruct l as [|b l]; [reflexivity|].
  cbn [map] in IH |- *. exact IH.
Qed.

Lemma SpaceTimeTravelled_on_nonempty (c : Car) :
  Track c <> [] ->
  SpaceTimeTravelled c
  = (consecutive_distance_sum (removelast (trajectory_points c)),
     time.Sub (List.last (timestamps (Track c)) 0%Z) (hd 0%Z (timestamps (Track c))),
     None).
Proof.
  intros Hne.
  assert (Hlen : (length (Track c) =? 0)%nat = false)
    by (destruct (Track c); [contradiction | reflexivity]).
  assert (Hd : pixel_distance c
               = consecutive_distance_sum (removelast (trajectory_points c)))
    by apply pixel_distance_removelast.
  unfold pixel_distance, SpaceTimeTravelled in Hd. rewrite Hlen in Hd. cbn [fst] in Hd.
  unfold SpaceTimeTravelled. rewrite Hlen, Hd. f_equal. f_equal. f_equal.
  - rewrite nth_pred_length_last. unfold timestamps.
    change 0%Z with ((fun t => blob.Created (TrackPoint t)) zeroCarTrack) at 1.
    rewrite last_map_default. reflexivity.
  - destruct (Track c); [contradiction | reflexivity].
Qed.

(** X4: what [SpaceTimeTravelled] returns for a car with a non-empty
    track: the sum of the neighbour distances of the trajectory without
    its last point, the time from the first to the last point, and no
    error. *)
Theorem SpaceTimeTravelled_nonempty :
  forall c : Car,
    Track c <> [] ->
    SpaceTimeTravelled c
    = (consecutive_distance_sum (removelast (trajectory_points c)),
       time.Sub (List.last (timestamps (Track c)) 0%Z) (hd 0%Z (timestamps (Track c))),
       None).
Proof. exact SpaceTimeTravelled_on_nonempty. Qed.

(** The crossing car: 600 pixels counted, two seconds. *)
Lemma SpaceTimeTravelled_nonempty_witness :
  SpaceTimeTravelled crossing_car
  = (consecutive_distance_sum (removelast (trajectory_points crossing_car)),
     time.Sub (List.last (timestamps (Track crossing_car)) 0%Z)
              (hd 0%Z (timestamps (Track crossing_car))),
     None).
Proof.
  apply (SpaceTimeTravelled_nonempty crossing_car). discriminate.
Defined.

(** X5: the distance lags one point behind: once a point is appended to a
    track, the distance [SpaceTimeTravelled] returns is the full path
    length of the track before the append. *)
Theorem distance_lags_one_point :
  forall (track : list CarTrack) (t : CarTrack) (tracker : contrib.Tracker),
    pixel_distance (MkCar (track ++ [t]) tracker)
    = consecutive_distance_sum (trajectory_points (MkCar track tracker)).
Proof.
  intros track t tracker. rewrite pixel_distance_removelast.
  unfold trajectory_points. cbn [Track].
  rewrite map_app. cbn [map]. rewrite removelast_last. reflexivity.
Qed.

Lemma consecutive_distance_sum_nonneg (points : list image.Point) :
  0 <= consecutive_distance_sum points.
Proof.
  induction points as [|p points IH]; [cbn; lra|].
  destruct points as [|q points]; [cbn; lra|].
  change (consecutive_distance_sum (p :: q :: points))
    with (distanceBetweenPoints p q + consecutive_distance_sum (q :: points)).
  assert (0 <= distanceBetweenPoints p q) by (unfold distanceBetweenPoints; apply sqrt_pos).
  lra.
Qed.

Lemma StronglySorted_hd_le_last (ts : list Z) :
  StronglySorted Z.le ts -> (hd 0 ts <= List.last ts 0)%Z.
Proof.
  intros Hs. destruct ts as [|a ts]; [cbn; lia|].
  apply StronglySorted_inv in Hs as [_ Hall]. cbn [hd].
  destruct ts as [|b ts]; [cbn; lia|].
  change (List.last (a :: b :: ts) 0%Z) with (List.last (b :: ts) 0%Z).
  rewrite Forall_forall in Hall. apply Hall.
  assert (Hin : In (List.last (b :: ts) 0%Z) (b :: ts)).
  { clear. revert b. induction ts as [|c ts IH]; intros b; [left; reflexivity|].
    right. apply IH. }
  apply list_elem_of_In. exact Hin.
Qed.

(** X6: for a track whose timestamps never decrease, the elapsed time
    [SpaceTimeTravelled] returns is not negative, and the distance it
    returns is not negative for any track. *)
Theorem elapsed_and_distance_nonneg :
  forall c : Car,
    StronglySorted Z.le (timestamps (Track c)) ->
    (0 <= elapsed c)%Z /\ 0 <= pixel_distance c.
Proof.
  intros c Hs. split.
  - unfold elapsed. destruct (Track c) as [|a track] eqn:E.
    + unfold SpaceTimeTravelled. rewrite E. cbn. lia.
    + rewrite SpaceTimeTravelled_on_nonempty by (rewrite E; discriminate).
      cbn [fst snd]. rewrite E.
      apply StronglySorted_hd_le_last in Hs.
      unfold time.Time in *.
      set (first := hd 0%Z (timestamps (a :: track))) in *.
      set (final := List.last (timestamps (a :: track)) 0%Z) in *.
      clearbody first final.
      unfold time.Sub, time.minDuration, time.maxDuration.
      change (2 ^ 63)%Z with 9223372036854775808%Z. lia.
  - rewrite pixel_distance_removelast. apply consecutive_distance_sum_nonneg.
Qed.

(** The crossing car is stamped 0 s, 1 s, 2 s. *)
Lemma elapsed_and_distance_nonneg_witness :
  (0 <= elapsed crossing_car)%Z /\ 0 <= pixel_distance crossing_car.
Proof.
  apply (elapsed_and_distance_nonneg crossing_car).
  cbv [timestamps crossing_car three_point_car Track map TrackPoint blob.Created].
  repeat constructor; lia.
Defined.

(** X7: [MiddleMat] and [SpaceTimeTravelled] fail together: each returns
    an error exactly when the track is empty, [MiddleMat] then returns no
    snapshot, and [SpaceTimeTravelled] then returns distance 0 and
    duration 0. *)
Theorem empty_track_errors :
  forall c : Car,
    (snd (MiddleMat c) = None <-> Track c <> []) /\
    (snd (SpaceTimeTravelled c) = None <-> Track c <> []) /\
    (fst (MiddleMat c) = None <-> Track c = []) /\
    (Track c = [] -> fst (SpaceTimeTravelled c) = (0, 0%Z)).
Proof.
  intros c. unfold MiddleMat, SpaceTimeTravelled.
  destruct (Track c) as [|a track]; cbn [length Nat.eqb fst snd].
  - repeat split; intros H; try reflexivity; try discriminate H; congruence.
  - repeat split; intros H; try reflexivity; try discriminate H; congruence.
Qed.

(** ** removeCar *)

(** X8: in pixels, the threshold of [removeCar] lies between 261.62 and
    261.64: a live object whose counted pixel distance is at least 261.64
    is reported, one whose counted pixel distance is at most 261.62 is
    dropped without a record. *)
Theorem threshold_in_pixels :
  forall (now : time.Time) (st : State) (id : uuid.UUID) (car : Car),
    cars st !! id = Some car ->
    (261.64 <= pixel_distance car -> removeCar now st id = Ok (emit now st id car)) /\
    (pixel_distance car <= 261.62 ->
     removeCar now st id = Ok (MkState (delete id (cars st)) (emitted st))).
Proof.
  intros now st id car Hlive.
  pose proof ftperpixel_enclosure as [Hl Hu].
  assert (Hft : ft (pixel_distance car) = pixel_distance car * ftperpixel) by reflexivity.
  split; intros Hd.
  - apply removeCar_emits; [exact Hlive|]. rewrite Hft. nra.
  - apply (removeCar_discards now st id car Hlive). rewrite Hft.
    destruct (Rle_dec 0 (pixel_distance car)); nra.
Qed.

(** The crossing car counts 600 pixels. *)
Lemma threshold_in_pixels_witness :
  let st := MkState {[ 7%N := crossing_car ]} [] in
  (261.64 <= pixel_distance crossing_car ->
   removeCar 9%Z st 7%N = Ok (emit 9%Z st 7%N crossing_car)) /\
  (pixel_distance crossing_car <= 261.62 ->
   removeCar 9%Z st 7%N = Ok (MkState (delete 7%N (cars st)) (emitted st))).
Proof.
  intros st. apply (threshold_in_pixels 9%Z st 7%N crossing_car). reflexivity.
Defined.

Lemma removeCar_frame
    (now : time.Time) (st : State) (id : uuid.UUID) (st' : State) :
  removeCar now st id = Ok st' ->
  cars st' = delete id (cars st) /\ exists new, emitted st' = emitted st ++ new.
Proof.
  intros Hrun.
  destruct (cars st !! id) as [car|] eqn:Hlive;
    [|rewrite (removeCar_absent now st id Hlive) in Hrun; discriminate Hrun].
  rewrite (removeCar_live now st id car Hlive) in Hrun.
  destruct (Rle_dec 60 (ft (pixel_distance car))); injection Hrun as <-.
  - split; [reflexivity|]. eexists. reflexivity.
  - split; [reflexivity|]. exists []. cbn [emitted]. rewrite app_nil_r. reflexivity.
Qed.

(** X9: [removeCar] panics exactly when the identifier is not in the
    register; otherwise it returns with the identifier deleted, every
    other entry as it was, and the earlier events still in front of what
    it emitted. *)
Theorem removeCar_panics_iff_absent :
  forall (now : time.Time) (st : State) (id : uuid.UUID),
    (removeCar now st id = Panic <-> cars st !! id = None) /\
    (forall st', removeCar now st id = Ok st' ->
       cars st' = delete id (cars st) /\
       cars st' !! id = None /\
       (forall j, j <> id -> cars st' !! j = cars st !! j) /\
       exists new, emitted st' = emitted st ++ new).
Proof.
  intros now st id.
  destruct (cars st !! id) as [car|] eqn:Hlive.
  - rewrite (removeCar_live now st id car Hlive).
    split; [split; intros H; [|discriminate H]|].
    + destruct (Rle_dec 60 (ft (pixel_distance car))); discriminate H.
    + intros st' Hrun.
      assert (Hcars : cars st' = delete id (cars st) /\
                      exists new, emitted st' = emitted st ++ new).
      { destruct (Rle_dec 60 (ft (pixel_distance car))); injection Hrun as <-.
        - split; [reflexivity|]. eexists. reflexivity.
        - split; [reflexivity|]. exists []. cbn [emitted]. rewrite app_nil_r. reflexivity. }
      destruct Hcars as [Hcars Hev]. rewrite Hcars.
      split; [reflexivity|]. split; [apply lookup_delete_eq|].
      split; [|exact Hev]. intros j Hj. apply lookup_delete_ne. congruence.
  - rewrite (removeCar_absent now st id Hlive).
    split; [split; reflexivity|]. intros st' H. discriminate H.
Qed.

(** X10: a record takes at least three track points: whenever [removeCar]
    emits anything for a live object, its track has three points or more
    (with two points the loop of [SpaceTimeTravelled] adds nothing). *)
Theorem record_needs_three_points :
  forall (now : time.Time) (st st' : State) (id : uuid.UUID) (car : Car),
    cars st !! id = Some car ->
    removeCar now st id = Ok st' ->
    emitted st' <> emitted st ->
    (3 <= length (Track car))%nat.
Proof.
  intros now st st' id car Hlive Hrun Hnew.
  destruct (le_lt_dec 3 (length (Track car))) as [H | H]; [exact H|].
  exfalso. apply Hnew.
  pose proof (removeCar_short_track now st id car Hlive H) as Hd.
  unfold discarded in Hd. rewrite Hd in Hrun. injection Hrun as <-. reflexivity.
Qed.

(** The crossing car has three points and is reported. *)
Lemma record_needs_three_points_witness :
  (3 <= length (Track crossing_car))%nat.
Proof.
  apply (record_needs_three_points 9%Z (MkState {[ 7%N := crossing_car ]} [])
           (emit 9%Z (MkState {[ 7%N := crossing_car ]} []) 7%N crossing_car)
           7%N crossing_car).
  - reflexivity.
  - apply removeCar_emits; [reflexivity | apply three_point_car_passes].
  - unfold emit. cbn [emitted app]. discriminate.
Defined.

(** ** Invariants of the tracking loop *)

Lemma for_range_invariant {S A : Type} (P : S -> Prop) (step : S -> A -> result S) :
  (forall s a s', P s -> step s a = Ok s' -> P s') ->
  forall (l : list A) (s s' : S), P s -> for_range step l s = Ok s' -> P s'.
Proof.
  intros Hstep l. induction l as [|a l IH]; intros s s' Hs Hrun; cbn [for_range] in Hrun.
  - injection Hrun as <-. exact Hs.
  - destruct (step s a) as [s1|] eqn:E; cbn [bind] in Hrun; [|discriminate Hrun].
    apply (IH s1 s'); [apply (Hstep s a s1 Hs E) | exact Hrun].
Qed.

(** [finalize] keeps every property of the state that [removeCar] keeps
    and that does not depend on the register being emptied. *)
Lemma finalize_invariant (P : State -> Prop) (f : Frame) :
  (forall st id st', P st -> removeCar (now f) st id = Ok st' -> P st') ->
  (forall st, P st -> P (MkState ∅ (emitted st))) ->
  forall st st', P st -> finalize f st = Ok st' -> P st'.
Proof.
  intros Hremove Hclear st st' Hst Hrun. unfold finalize in Hrun.
  destruct ((length (Objects f) =? 0)%nat && (0 <? size (cars st))%nat).
  - destruct (for_range (removeCar (now f)) (carIDs f) st) as [s1|] eqn:E;
      cbn [bind] in Hrun; [|discriminate Hrun].
    injection Hrun as <-. apply Hclear.
    apply (for_range_invariant P (removeCar (now f)) Hremove (carIDs f) st s1 Hst E).
  - refine (for_range_invariant P _ _ (carIDs f) st st' Hst Hrun).
    intros s i s' Hs Hinner.
    refine (for_range_invariant P _ _ (Objects f) s s' Hs Hinner).
    intros s0 o s0' Hs0 Hone. unfold removeUnlessSame in Hone.
    destruct (o =? i)%N; [injection Hone as <-; exact Hs0|].
    apply (Hremove s0 i s0' Hs0 Hone).
Qed.

Lemma removeCar_records_pass (now : time.Time) (st st' : State) (id : uuid.UUID) :
  records_pass_threshold (emitted st) ->
  removeCar now st id = Ok st' ->
  records_pass_threshold (emitted st').
Proof.
  intros Hinv Hrun.
  destruct (cars st !! id) as [car|] eqn:Hlive;
    [|rewrite (removeCar_absent now st id Hlive) in Hrun; discriminate Hrun].
  rewrite (removeCar_live now st id car Hlive) in Hrun.
  destruct (Rle_dec 60 (ft (pixel_distance car))) as [Hge|Hlt]; injection Hrun as <-.
  - unfold emit, records_pass_threshold. cbn [emitted].
    apply Forall_app. split; [exact Hinv|].
    constructor; [exact I|]. constructor; [exact Hge|]. constructor.
  - exact Hinv.
Qed.

(** X11: the program never sends a record below the threshold: starting
    with nothing emitted, after any number of frames that ran without a
    panic, every record sent carries a distance of at least 60. *)
Theorem mainLoop_records_pass_threshold :
  forall (frames : list Frame) (register : gmap N Car) (st' : State),
    mainLoop frames (MkState register []) = Ok st' ->
    forall msg, In (ChanSend msg) (emitted st') -> 60 <= Distance msg.
Proof.
  intros frames register st' Hrun msg Hin.
  assert (Hinv : records_pass_threshold (emitted st')).
  { refine (for_range_invariant (fun st => records_pass_threshold (emitted st))
              _ _ frames (MkState register []) st' _ Hrun).
    - intros s f s' Hs Hstep. unfold frameStep in Hstep.
      refine (finalize_invariant (fun st => records_pass_threshold (emitted st)) f
                _ _ _ s' _ Hstep).
      + intros st0 id st0'. apply removeCar_records_pass.
      + intros st0 H0. exact H0.
      + exact Hs.
    - constructor. }
  unfold records_pass_threshold in Hinv. rewrite Forall_forall in Hinv.
  apply list_elem_of_In in Hin. exact (Hinv _ Hin).
Qed.

(** The scene clears while the crossing car is live: one frame, one
    record. *)
Lemma scene_clear_reports_crossing_car :
  mainLoop [scene_clear_frame [7%N]] (MkState {[ 7%N := crossing_car ]} [])
  = Ok (MkState ∅ [S3PutObject 7%N 12%N; ChanSend (record_of 6%Z 7%N crossing_car)]).
Proof.
  unfold mainLoop. cbn [for_range]. unfold frameStep.
  change (updateCars (scene_clear_frame [7%N])
            (registerNew (scene_clear_frame [7%N])
               (cars (MkState {[ 7%N := crossing_car ]} []))))
    with ({[ 7%N := crossing_car ]} : gmap N Car).
  unfold finalize.
  change (length (Objects (scene_clear_frame [7%N])) =? 0)%nat with true.
  cbn [emitted cars andb].
  rewrite map_size_singleton. cbn [Nat.ltb Nat.leb].
  change (carIDs (scene_clear_frame [7%N])) with [7%N]. cbn [for_range].
  rewrite (removeCar_emits _ _ _ crossing_car) by
    (reflexivity || apply three_point_car_passes).
  reflexivity.
Qed.

Lemma mainLoop_records_pass_threshold_witness :
  60 <= Distance (record_of 6%Z 7%N crossing_car).
Proof.
  apply (mainLoop_records_pass_threshold [scene_clear_frame [7%N]]
           {[ 7%N := crossing_car ]} _ scene_clear_reports_crossing_car).
  right. left. reflexivity.
Defined.

Lemma registerNew_tracks_positive (f : Frame) (register : gmap N Car) :
  tracks_positive register -> tracks_positive (registerNew f register).
Proof.
  unfold registerNew. generalize (NewObjects f). intros l. revert register.
  induction l as [|id l IH]; intros register Hinv; [exact Hinv|].
  cbn [fold_left]. apply IH. apply map_Forall_insert_2; [constructor | exact Hinv].
Qed.

Lemma updateCar_tracks_positive (f : Frame) (register : gmap N Car) (i : N) :
  tracks_positive register -> tracks_positive (updateCar f register i).
Proof.
  intros Hinv. unfold updateCar.
  destruct (register !! i) as [car|] eqn:Hlive; [|exact Hinv].
  destruct (Update f (Tracker car)) as [rect ok].
  destruct ((image.X (center rect) >? 0)%Z && (image.Y (center rect) >? 0)%Z) eqn:Hpos;
    [|exact Hinv].
  apply andb_true_iff in Hpos as [Hx Hy].
  apply map_Forall_insert_2; [|exact Hinv].
  unfold trajectory_points. cbn [Track]. rewrite map_app. apply Forall_app. split.
  - exact (Hinv i car Hlive).
  - constructor; [|constructor]. cbn. split; lia.
Qed.

Lemma updateCars_tracks_positive (f : Frame) (register : gmap N Car) :
  tracks_positive register -> tracks_positive (updateCars f register).
Proof.
  unfold updateCars. generalize (Objects f). intros l. revert register.
  induction l as [|i l IH]; intros register Hinv; [exact Hinv|].
  cbn [fold_left]. apply IH. apply updateCar_tracks_positive. exact Hinv.
Qed.

Lemma frameStep_tracks_positive (f : Frame) (st st' : State) :
  tracks_positive (cars st) -> frameStep f st = Ok st' -> tracks_positive (cars st').
Proof.
  intros Hinv Hrun. unfold frameStep in Hrun.
  refine (finalize_invariant (fun s => tracks_positive (cars s)) f _ _ _ st' _ Hrun).
  - intros s id s' Hs Hremove.
    destruct (removeCar_frame (now f) s id s' Hremove) as [Hcars _].
    rewrite Hcars. apply map_Forall_delete. exact Hs.
  - intros s _. apply map_Forall_empty.
  - cbn [cars]. apply updateCars_tracks_positive, registerNew_tracks_positive. exact Hinv.
Qed.

(** X12: only points with two positive coordinates are ever recorded:
    starting from an empty register, after any number of frames that ran
    without a panic, every point of every live track has X > 0 and
    Y > 0. *)
Theorem mainLoop_tracks_positive :
  forall (frames : list Frame) (st' : State) (id : N) (car : Car) (p : image.Point),
    mainLoop frames (MkState ∅ []) = Ok st' ->
    cars st' !! id = Some car ->
    In p (trajectory_points car) ->
    (0 < image.X p)%Z /\ (0 < image.Y p)%Z.
Proof.
  intros frames st' id car p Hrun Hlive Hin.
  assert (Hinv : tracks_positive (cars st')).
  { refine (for_range_invariant (fun s => tracks_positive (cars s))
              _ _ frames (MkState ∅ []) st' _ Hrun).
    - intros s f s' Hs Hstep. exact (frameStep_tracks_positive f s s' Hs Hstep).
    - apply map_Forall_empty. }
  specialize (Hinv id car Hlive). rewrite Forall_forall in Hinv.
  apply Hinv, list_elem_of_In, Hin.
Qed.

(** One frame in which object 1 appears and is recorded at (120,60). *)
Lemma mainLoop_tracks_positive_witness :
  (0 < image.X (image.Pt 120 60))%Z /\ (0 < image.Y (image.Pt 120 60))%Z.
Proof.
  apply (mainLoop_tracks_positive [first_sight_frame [1%N]]
           (MkState {[ 1%N := first_sight_car 1 ]} []) 1%N (first_sight_car 1)
           (image.Pt 120 60)).
  - reflexivity.
  - reflexivity.
  - left. reflexivity.
Defined.

(** ** The loops over the tracker's objects *)

Lemma updateCar_other (f : Frame) (register : gmap N Car) (i k : N) :
  k <> i -> updateCar f register k !! i = register !! i.
Proof.
  intros Hne. unfold updateCar.
  destruct (register !! k) as [car|]; [|reflexivity].
  destruct (Update f (Tracker car)) as [rect ok].
  destruct ((image.X (center rect) >? 0)%Z && (image.Y (center rect) >? 0)%Z);
    [apply lookup_insert_ne; exact Hne | reflexivity].
Qed.

Lemma updateCar_self (f : Frame) (register : gmap N Car) (i : N) (car : Car) :
  register !! i = Some car ->
  positive_point (refined_center f car) ->
  updateCar f register i !! i = Some (extended f i car).
Proof.
  intros Hlive [Hx Hy]. unfold updateCar, extended, refined_center in *. rewrite Hlive.
  destruct (Update f (Tracker car)) as [rect ok]. cbn [fst] in *.
  assert (Hpos : (image.X (center rect) >? 0)%Z && (image.Y (center rect) >? 0)%Z = true)
    by (apply andb_true_iff; split; lia).
  rewrite Hpos. apply lookup_insert_eq.
Qed.

Lemma fold_updateCar_notin (f : Frame) (l : list N) (register : gmap N Car) (i : N) :
  ~ In i l -> fold_left (updateCar f) l register !! i = register !! i.
Proof.
  revert register. induction l as [|k l IH]; intros register Hnotin; [reflexivity|].
  cbn [fold_left]. rewrite IH by (intros H; apply Hnotin; right; exact H).
  apply updateCar_other. intros ->. apply Hnotin. left. reflexivity.
Qed.

(** X13: what the update loop does to one live car, the tracker's keys
    being distinct: if the car's identifier is among the tracker's objects
    and the refined centre has two positive coordinates, exactly one point
    is appended, the centre stamped with the frame's time; otherwise the
    car is left as it is. *)
Theorem updateCars_one_point_per_frame :
  forall (f : Frame) (register : gmap N Car) (i : N) (car : Car),
    NoDup (Objects f) ->
    register !! i = Some car ->
    (In i (Objects f) -> positive_point (refined_center f car) ->
     updateCars f register !! i = Some (extended f i car)) /\
    (~ In i (Objects f) \/ degenerate (refined_center f car) ->
     updateCars f register !! i = Some car).
Proof.
  intros f register i car Hnodup Hlive. unfold updateCars. split.
  - intros Hin Hpos. revert register Hlive Hnodup Hin.
    generalize (Objects f). intros l. induction l as [|k l IH];
      intros register Hlive Hnodup Hin; [destruct Hin|].
    apply NoDup_cons in Hnodup as [Hk Hnodup]. cbn [fold_left].
    rewrite list_elem_of_In in Hk.
    destruct (N.eq_dec k i) as [-> | Hne].
    + rewrite fold_updateCar_notin by exact Hk.
      apply updateCar_self; assumption.
    + apply IH; [|exact Hnodup|destruct Hin as [H|H]; [contradiction | exact H]].
      rewrite updateCar_other by exact Hne. exact Hlive.
  - intros [Hnotin | Hdeg].
    + rewrite fold_updateCar_notin by exact Hnotin. exact Hlive.
    + clear Hnodup. revert register Hlive. generalize (Objects f). intros l.
      induction l as [|k l IH]; intros register Hlive; [exact Hlive|].
      cbn [fold_left]. apply IH. apply updateCar_keeps_degenerate; assumption.
Qed.

(** In its first frame object 1 gets the point (120,60). *)
Lemma updateCars_one_point_per_frame_witness :
  let f := first_sight_frame [1%N] in
  let register : gmap N Car := {[ 1%N := MkCar [] 1%N ]} in
  (In 1%N (Objects f) -> positive_point (refined_center f (MkCar [] 1%N)) ->
   updateCars f register !! 1%N = Some (extended f 1%N (MkCar [] 1%N))) /\
  (~ In 1%N (Objects f) \/ degenerate (refined_center f (MkCar [] 1%N)) ->
   updateCars f register !! 1%N = Some (MkCar [] 1%N)).
Proof.
  intros f register.
  apply (updateCars_one_point_per_frame f register 1%N (MkCar [] 1%N)).
  - apply NoDup_singleton.
  - reflexivity.
Defined.

(** X14: the loop over the new objects gives every new identifier a car
    with an empty track (replacing a car already registered under it) and
    leaves every other entry alone. *)
Theorem registerNew_lookup :
  forall (f : Frame) (register : gmap N Car) (id : N),
    (In id (NewObjects f) ->
     registerNew f register !! id = Some (MkCar [] (NewTrackerMOSSE f id))) /\
    (~ In id (NewObjects f) -> registerNew f register !! id = register !! id).
Proof.
  intros f register id. unfold registerNew. revert register.
  generalize (NewObjects f). intros l.
  induction l as [|k l IH]; intros register.
  - split; [intros [] | reflexivity].
  - cbn [fold_left]. destruct (IH (<[k := MkCar [] (NewTrackerMOSSE f k)]> register))
      as [IHin IHout].
    destruct (in_dec N.eq_dec id l) as [Hl | Hl].
    + split; [intros _; apply IHin; exact Hl|].
      intros Hnot. exfalso. apply Hnot. right. exact Hl.
    + rewrite (IHout Hl). split.
      * intros [-> | H]; [apply lookup_insert_eq | contradiction].
      * intros Hnot. apply lookup_insert_ne. intros ->. apply Hnot. left. reflexivity.
Qed.

(** ** The removal at the end of an iteration *)

Lemma removeCar_sent (now : time.Time) (st : State) (id : N) (car : Car) :
  cars st !! id = Some car ->
  exists st1, removeCar now st id = Ok st1 /\
              cars st1 = delete id (cars st) /\
              sent (emitted st1) = sent (emitted st) ++ records_for now (cars st) id.
Proof.
  intros Hlive. rewrite (removeCar_live now st id car Hlive).
  unfold records_for. rewrite Hlive.
  destruct (Rle_dec 60 (ft (pixel_distance car))).
  - eexists. split; [reflexivity|]. split; [reflexivity|].
    unfold emit. cbn [emitted]. rewrite sent_app. reflexivity.
  - eexists. split; [reflexivity|]. split; [reflexivity|].
    cbn [emitted]. rewrite app_nil_r. reflexivity.
Qed.

Lemma flat_map_agree {A B : Type} (g h : A -> list B) (l : list A) :
  (forall a, In a l -> g a = h a) -> flat_map g l = flat_map h l.
Proof.
  induction l as [|a l IH]; intros H; [reflexivity|].
  cbn [flat_map]. rewrite (H a) by (left; reflexivity).
  rewrite IH by (intros b Hb; apply H; right; exact Hb). reflexivity.
Qed.

Lemma for_range_ext {S A : Type} (step1 step2 : S -> A -> result S) (l : list A) (s : S) :
  (forall s a, step1 s a = step2 s a) -> for_range step1 l s = for_range step2 l s.
Proof.
  intros H. revert s. induction l as [|a l IH]; intros s; [reflexivity|].
  cbn [for_range]. rewrite H. destruct (step2 s a); cbn [bind]; [apply IH | reflexivity].
Qed.

Lemma bind_Ok_r {A : Type} (r : result A) : bind r Ok = r.
Proof. destruct r; reflexivity. Qed.

(** A loop that finalizes every listed live object except those [keep]
    holds back: it returns, the finalized objects are gone, the others are
    untouched, and the records sent are those of the finalized objects, in
    the order of the list. *)
Lemma for_range_remove_unless (now : time.Time) (keep : N -> bool) (l : list N) :
  forall st : State,
    NoDup l ->
    (forall id, In id l -> is_Some (cars st !! id)) ->
    exists st',
      for_range (fun st i => if keep i then Ok st else removeCar now st i) l st = Ok st' /\
      (forall id, In id l -> keep id = false -> cars st' !! id = None) /\
      (forall id, ~ In id l \/ keep id = true -> cars st' !! id = cars st !! id) /\
      sent (emitted st')
      = sent (emitted st)
        ++ flat_map (fun id => if keep id then [] else records_for now (cars st) id) l.
Proof.
  induction l as [|a l IH]; intros st Hnodup Hlive.
  - exists st. cbn [for_range flat_map]. rewrite app_nil_r.
    repeat split; try reflexivity. intros id [].
  - apply NoDup_cons in Hnodup as [Ha Hnodup]. rewrite list_elem_of_In in Ha.
    cbn [for_range flat_map]. destruct (keep a) eqn:Hkeep.
    + cbn [bind].
      destruct (IH st Hnodup (fun id H => Hlive id (or_intror H)))
        as (st' & Hrun & Hgone & Hkept & Hsent).
      exists st'. split; [exact Hrun|]. split; [|split].
      * intros id [-> | Hin] Hk; [congruence | exact (Hgone id Hin Hk)].
      * intros id [Hnot | Hk]; apply Hkept; [left | right; exact Hk].
        intros H. apply Hnot. right. exact H.
      * exact Hsent.
    + destruct (Hlive a (or_introl eq_refl)) as [car Hcar].
      destruct (removeCar_sent now st a car Hcar) as (st1 & Hrm & Hcars1 & Hsent1).
      rewrite Hrm. cbn [bind].
      assert (Hother : forall id, id <> a -> cars st1 !! id = cars st !! id).
      { intros id Hne. rewrite Hcars1. apply lookup_delete_ne. congruence. }
      assert (Hlive1 : forall id, In id l -> is_Some (cars st1 !! id)).
      { intros id Hin. rewrite Hother by (intros ->; contradiction).
        apply Hlive. right. exact Hin. }
      destruct (IH st1 Hnodup Hlive1) as (st' & Hrun & Hgone & Hkept & Hsent).
      exists st'. split; [exact Hrun|]. split; [|split].
      * intros id [<- | Hin] Hk; [|exact (Hgone id Hin Hk)].
        rewrite (Hkept a (or_introl Ha)), Hcars1. apply lookup_delete_eq.
      * intros id Hid.
        assert (Hne : id <> a).
        { destruct Hid as [Hnot | Hk]; intros ->;
            [apply Hnot; left; reflexivity | congruence]. }
        rewrite <- (Hother id Hne). apply Hkept.
        destruct Hid as [Hnot | Hk]; [left | right; exact Hk].
        intros H. apply Hnot. right. exact H.
      * rewrite Hsent, Hsent1, <- app_assoc. f_equal. f_equal.
        apply flat_map_agree. intros id Hin.
        destruct (keep id); [reflexivity|].
        unfold records_for. rewrite Hother by (intros ->; contradiction). reflexivity.
Qed.

(** X15: the scene-clear branch: when the tracker holds no object any
    more, the iteration finalizes every live car once, in the order the
    register is ranged over, sends exactly the records of the cars that
    pass the threshold, leaves the register empty, and does not panic. *)
Theorem finalize_scene_clear :
  forall (f : Frame) (st : State),
    Objects f = [] ->
    lists_keys (carIDs f) (cars st) ->
    exists st',
      finalize f st = Ok st' /\
      cars st' = ∅ /\
      sent (emitted st')
      = sent (emitted st) ++ flat_map (records_for (now f) (cars st)) (carIDs f).
Proof.
  intros f st Hobjs [Hnodup Hkeys]. unfold finalize. rewrite Hobjs.
  cbn [length Nat.eqb andb].
  destruct (0 <? size (cars st))%nat eqn:Hsize.
  - destruct (for_range_remove_unless (now f) (fun _ => false) (carIDs f) st Hnodup
                (fun id H => proj1 (Hkeys id) H))
      as (st' & Hrun & _ & _ & Hsent).
    assert (Hrun' : for_range (removeCar (now f)) (carIDs f) st = Ok st') by exact Hrun.
    rewrite Hrun'. cbn [bind].
    eexists. split; [reflexivity|]. split; [reflexivity|]. exact Hsent.
  - apply Nat.ltb_ge in Hsize.
    assert (Hempty : cars st = ∅) by (apply map_size_empty_iff; lia).
    assert (Hids : carIDs f = []).
    { destruct (carIDs f) as [|id ids] eqn:E; [reflexivity|].
      destruct (proj1 (Hkeys id) (or_introl eq_refl)) as [car Hcar].
      rewrite Hempty, lookup_empty in Hcar. discriminate Hcar. }
    rewrite Hids. cbn [for_range flat_map]. exists st.
    split; [reflexivity|]. split; [exact Hempty|]. rewrite app_nil_r. reflexivity.
Qed.

(** The scene clears while the crossing car is the one live object. *)
Lemma finalize_scene_clear_witness :
  let f := scene_clear_frame [7%N] in
  let st := MkState {[ 7%N := crossing_car ]} [] in
  exists st',
    finalize f st = Ok st' /\
    cars st' = ∅ /\
    sent (emitted st')
    = sent (emitted st) ++ flat_map (records_for (now f) (cars st)) (carIDs f).
Proof.
  intros f st. apply (finalize_scene_clear f st).
  - reflexivity.
  - split; [apply NoDup_singleton|]. intros id. cbn [carIDs f scene_clear_frame cars st].
    split.
    + intros [<- | []]. exists crossing_car. reflexivity.
    + intros [car Hcar]. left.
      destruct (N.eq_dec 7%N id) as [H | H]; [exact H|].
      rewrite lookup_singleton_ne in Hcar by exact H. discriminate Hcar.
Defined.

(** X16: with exactly one object [o] in the tracker, the removal loop
    does what it is meant to: it finalizes every live car other than [o]
    once, keeps the car of [o] as it is, sends exactly the records of the
    finalized cars that pass the threshold, and does not panic. *)
Theorem finalize_single_object :
  forall (f : Frame) (st : State) (o : N),
    Objects f = [o] ->
    lists_keys (carIDs f) (cars st) ->
    exists st',
      finalize f st = Ok st' /\
      cars st' !! o = cars st !! o /\
      (forall id, id <> o -> cars st' !! id = None) /\
      sent (emitted st')
      = sent (emitted st)
        ++ flat_map (fun id => if (o =? id)%N then [] else records_for (now f) (cars st) id)
                    (carIDs f).
Proof.
  intros f st o Hobjs [Hnodup Hkeys]. unfold finalize. rewrite Hobjs.
  cbn [length Nat.eqb andb].
  destruct (for_range_remove_unless (now f) (fun id => (o =? id)%N) (carIDs f) st Hnodup
              (fun id H => proj1 (Hkeys id) H))
    as (st' & Hrun & Hgone & Hkept & Hsent).
  exists st'. split; [|split; [|split]].
  - rewrite <- Hrun. apply for_range_ext. intros s i.
    cbn [for_range]. rewrite bind_Ok_r. reflexivity.
  - apply Hkept. right. apply N.eqb_refl.
  - intros id Hne.
    assert (Hk : (o =? id)%N = false) by (apply N.eqb_neq; congruence).
    destruct (in_dec N.eq_dec id (carIDs f)) as [Hin | Hnot].
    + exact (Hgone id Hin Hk).
    + rewrite (Hkept id (or_introl Hnot)).
      destruct (cars st !! id) as [car|] eqn:E; [|reflexivity].
      exfalso. apply Hnot, Hkeys. exists car. exact E.
  - exact Hsent.
Qed.

(** Object 1 is tracked alone and is the one live car. *)
Lemma finalize_single_object_witness :
  let f := first_sight_frame [1%N] in
  let st := MkState {[ 1%N := first_sight_car 1 ]} [] in
  exists st',
    finalize f st = Ok st' /\
    cars st' !! 1%N = cars st !! 1%N /\
    (forall id, id <> 1%N -> cars st' !! id = None) /\
    sent (emitted st')
    = sent (emitted st)
      ++ flat_map (fun id => if (1 =? id)%N then [] else records_for (now f) (cars st) id)
                  (carIDs f).
Proof.
  intros f st. apply (finalize_single_object f st 1%N).
  - reflexivity.
  - split; [apply NoDup_singleton|]. intros id. cbn [carIDs f first_sight_frame cars st].
    split.
    + intros [<- | []]. exists (first_sight_car 1). reflexivity.
    + intros [car Hcar]. left.
      destruct (N.eq_dec 1%N id) as [H | H]; [exact H|].
      rewrite lookup_singleton_ne in Hcar by exact H. discriminate Hcar.
Defined.

Lemma removeCar_live_gone (now : time.Time) (st : State) (i : N) :
  is_Some (cars st !! i) ->
  exists st1, removeCar now st i = Ok st1 /\ cars st1 !! i = None.
Proof.
  intros [car Hcar].
  destruct (removeCar_sent now st i car Hcar) as (st1 & Hrm & Hcars & _).
  exists st1. split; [exact Hrm|]. rewrite Hcars. apply lookup_delete_eq.
Qed.

(** Once [i] is gone, any tracker object other than [i] makes the inner
    loop panic. *)
Lemma inner_loop_panics_when_gone (f : Frame) (i : N) (l : list N) (st : State) :
  cars st !! i = None ->
  (exists o, In o l /\ o <> i) ->
  for_range (removeUnlessSame f i) l st = Panic.
Proof.
  intros Hgone. induction l as [|a l IH]; intros (o & Hin & Hne); [destruct Hin|].
  cbn [for_range]. unfold removeUnlessSame at 1.
  destruct (a =? i)%N eqn:E.
  - cbn [bind]. apply IH. exists o. split; [|exact Hne].
    destruct Hin as [<- | Hin]; [|exact Hin].
    apply N.eqb_eq in E. contradiction.
  - rewrite removeCar_absent by exact Hgone. reflexivity.
Qed.

Lemma for_range_cons {S A : Type} (step : S -> A -> result S) (a : A) (l : list A) (s : S) :
  for_range step (a :: l) s = bind (step s a) (for_range step l).
Proof. reflexivity. Qed.

(** X17: as soon as the tracker holds three objects or more and a car is
    live, the iteration panics: for the first car the register yields,
    [removeCar] is called a second time, on the entry the first call has
    deleted. *)
Theorem finalize_panics_with_three_objects :
  forall (f : Frame) (st : State) (i : N) (rest : list N),
    NoDup (Objects f) ->
    (3 <= length (Objects f))%nat ->
    carIDs f = i :: rest ->
    is_Some (cars st !! i) ->
    finalize f st = Panic.
Proof.
  intros f st i rest Hnodup Hlen Hids Hlive. unfold finalize.
  destruct (Objects f) as [|a [|b [|c l]]] eqn:Hobjs; cbn [length] in Hlen; try lia.
  cbn [length Nat.eqb andb]. rewrite Hids, for_range_cons. cbv beta.
  assert (Hinner : for_range (removeUnlessSame f i) (a :: b :: c :: l) st = Panic).
  { apply NoDup_cons in Hnodup as [Ha Hnodup].
    apply NoDup_cons in Hnodup as [Hb Hnodup].
    rewrite !list_elem_of_In in *.
    destruct (removeCar_live_gone (now f) st i Hlive) as (st1 & Hrm & Hgone).
    rewrite for_range_cons. unfold removeUnlessSame at 1.
    destruct (a =? i)%N eqn:Ea.
    - apply N.eqb_eq in Ea. subst a. cbn [bind].
      rewrite for_range_cons. unfold removeUnlessSame at 1.
      assert (Eb : (b =? i)%N = false).
      { apply N.eqb_neq. intros ->. apply Ha. left. reflexivity. }
      rewrite Eb, Hrm. cbn [bind].
      apply inner_loop_panics_when_gone; [exact Hgone|].
      exists c. split; [left; reflexivity|].
      intros ->. apply Ha. right. left. reflexivity.
    - rewrite Hrm. cbn [bind].
      apply inner_loop_panics_when_gone; [exact Hgone|].
      destruct (N.eq_dec b i) as [-> | Hbi].
      + exists c. split; [right; left; reflexivity|].
        intros ->. apply Hb. left. reflexivity.
      + exists b. split; [left; reflexivity | exact Hbi]. }
  rewrite Hinner. reflexivity.
Qed.

(** Three objects appear at once; object 1 is live. *)
Lemma finalize_panics_with_three_objects_witness :
  finalize (first_sight_frame [1%N; 2%N; 3%N])
           (MkState {[ 1%N := first_sight_car 1 ]} []) = Panic.
Proof.
  apply (finalize_panics_with_three_objects (first_sight_frame [1%N; 2%N; 3%N])
           (MkState {[ 1%N := first_sight_car 1 ]} []) 1%N [2%N; 3%N]).
  - cbn [Objects first_sight_frame].
    apply (bool_decide_unpack (NoDup [1%N; 2%N; 3%N])). vm_compute. exact I.
  - cbn. lia.
  - reflexivity.
  - exists (first_sight_car 1). reflexivity.
Defined.

(** ** padRect *)

Lemma Int_wrap_pixel (z : Z) :
  (-4294967296 <= z <= 4294967296)%Z -> Int.wrap z = z.
Proof.
  intros H. apply Int_wrap_small.
  change (2 ^ 63)%Z with 9223372036854775808%Z. lia.
Qed.

(** X18: whatever the rectangle and the pad amount, the rectangle
    [padRect] returns has Min.X >= 0, Min.Y >= 0 and Max.X <= 639; only
    Max.Y is left without an upper bound. *)
Theorem padRect_clamps_three_sides :
  forall (rect : image.Rectangle) (padAmount : Z),
    (0 <= image.X (image.Min (padRect rect padAmount)))%Z /\
    (0 <= image.Y (image.Min (padRect rect padAmount)))%Z /\
    (image.X (image.Max (padRect rect padAmount)) <= 639)%Z.
Proof.
  intros [[minX minY] [maxX maxY]] pad. unfold padRect.
  cbn [image.Min image.Max image.X image.Y].
  generalize (Int.sub minX pad) (Int.sub minY pad) (Int.add maxX pad) (Int.add maxY pad).
  intros a b c d.
  destruct (a <? 0)%Z eqn:Ea; cbn [image.X image.Y];
    destruct (b <? 0)%Z eqn:Eb; cbn [image.X image.Y];
      destruct (c >? 639)%Z eqn:Ec; cbn [image.X image.Y];
        destruct (d >? 479)%Z eqn:Ed; cbn [image.X image.Y image.Min image.Max];
          rewrite ?Z.gtb_ltb in *;
          rewrite ?Z.ltb_lt, ?Z.ltb_ge in *; lia.
Qed.

(** X19: for a rectangle inside the 640x480 frame and a pad amount that
    keeps Max.Y + pad within 479, [padRect] returns the rectangle grown by
    the pad on every side and cut to the frame: it is within the frame
    bounds. *)
Theorem padRect_within_frame_when_y_fits :
  forall (rect : image.Rectangle) (padAmount : Z),
    in_frame rect ->
    (0 <= padAmount)%Z ->
    (image.Y (image.Max rect) + padAmount <= 479)%Z ->
    padRect rect padAmount
    = image.Rect
        (image.Pt (Z.max 0 (image.X (image.Min rect) - padAmount))
                  (Z.max 0 (image.Y (image.Min rect) - padAmount)))
        (image.Pt (Z.min 639 (image.X (image.Max rect) + padAmount))
                  (image.Y (image.Max rect) + padAmount))
    /\ within_bounds (padRect rect padAmount).
Proof.
  intros [[minX minY] [maxX maxY]] pad Hin Hpad Hy.
  unfold in_frame in Hin. cbn [image.Min image.Max image.X image.Y] in *.
  assert (Heq : padRect (image.Rect (image.Pt minX minY) (image.Pt maxX maxY)) pad
                = image.Rect (image.Pt (Z.max 0 (minX - pad)) (Z.max 0 (minY - pad)))
                             (image.Pt (Z.min 639 (maxX + pad)) (maxY + pad))).
  { unfold padRect. cbn [image.Min image.Max image.X image.Y].
    unfold Int.sub, Int.add. rewrite !Int_wrap_pixel by lia.
    destruct (minX - pad <? 0)%Z eqn:Ea; cbn [image.X image.Y];
      destruct (minY - pad <? 0)%Z eqn:Eb; cbn [image.X image.Y];
        destruct (maxX + pad >? 639)%Z eqn:Ec; cbn [image.X image.Y];
          destruct (maxY + pad >? 479)%Z eqn:Ed; cbn [image.X image.Y];
            rewrite ?Z.gtb_ltb in *;
            rewrite ?Z.ltb_lt, ?Z.ltb_ge in *;
            try lia; f_equal; f_equal; lia. }
  split; [exact Heq|]. rewrite Heq. unfold within_bounds.
  cbn [image.Min image.Max image.X image.Y]. lia.
Qed.

(** The box (100,100)-(200,200) padded by 20. *)
Lemma padRect_within_frame_when_y_fits_witness :
  padRect (image.Rect (image.Pt 100 100) (image.Pt 200 200)) 20
  = image.Rect
      (image.Pt (Z.max 0 (100 - 20)) (Z.max 0 (100 - 20)))
      (image.Pt (Z.min 639 (200 + 20)) (200 + 20))
  /\ within_bounds (padRect (image.Rect (image.Pt 100 100) (image.Pt 200 200)) 20).
Proof.
  apply (padRect_within_frame_when_y_fits
           (image.Rect (image.Pt 100 100) (image.Pt 200 200)) 20).
  - unfold in_frame. simpl. lia.
  - lia.
  - simpl. lia.
Defined.

(** ** uuidin *)

(** X20: [uuidin] answers membership: it returns true exactly when the
    identifier occurs in the list. *)
Theorem uuidin_iff_In :
  forall (a : N) (l : list N), uuidin a l = true <-> In a l.
Proof.
  intros a l. induction l as [|b l IH]; cbn [uuidin In].
  - split; [discriminate | intros []].
  - destruct (b =? a)%N eqn:E.
    + apply N.eqb_eq in E. split; [intros _; left; exact E | reflexivity].
    + apply N.eqb_neq in E. rewrite IH. split; [intros H; right; exact H|].
      intros [H | H]; [contradiction | exact H].
Qed.

(** ** isInsideMask and the centre of a box *)

(** X21: the centre the program takes of a box with non-negative 31-bit
    coordinates is the midpoint (Min + Max) / 2, rounded down, in each
    coordinate, and lies inside the box. *)
Theorem center_is_midpoint :
  forall rect : image.Rectangle,
    (0 <= image.X (image.Min rect) <= image.X (image.Max rect))%Z ->
    (0 <= image.Y (image.Min rect) <= image.Y (image.Max rect))%Z ->
    (image.X (image.Max rect) < 2147483648)%Z ->
    (image.Y (image.Max rect) < 2147483648)%Z ->
    center rect
    = image.Pt ((image.X (image.Min rect) + image.X (image.Max rect)) / 2)
               ((image.Y (image.Min rect) + image.Y (image.Max rect)) / 2)
    /\ (image.X (image.Min rect) <= image.X (center rect) <= image.X (image.Max rect))%Z
    /\ (image.Y (image.Min rect) <= image.Y (center rect) <= image.Y (image.Max rect))%Z.
Proof.
  intros [[minX minY] [maxX maxY]]. cbn [image.Min image.Max image.X image.Y].
  intros Hx Hy Hmx Hmy.
  assert (Heq : center (image.Rect (image.Pt minX minY) (image.Pt maxX maxY))
                = image.Pt ((minX + maxX) / 2) ((minY + maxY) / 2)).
  { unfold center, image.Dx, image.Dy, Int.quot, Int.add, Int.mul, Int.sub.
    cbn [image.Min image.Max image.X image.Y].
    rewrite !(Int_wrap_pixel (_ - _)) by lia.
    rewrite !(Int_wrap_pixel (_ * 2)) by lia.
    rewrite !(Int_wrap_pixel (_ + _)) by lia.
    rewrite !Z.quot_div_nonneg by lia.
    rewrite !Int_wrap_pixel by (Z.div_mod_to_equations; lia).
    f_equal; Z.div_mod_to_equations; lia. }
  split; [exact Heq|]. rewrite Heq. cbn [image.X image.Y].
  Z.div_mod_to_equations. lia.
Qed.

(** The box (100,50)-(141,70). *)
Lemma center_is_midpoint_witness :
  center (image.Rect (image.Pt 100 50) (image.Pt 141 70))
  = image.Pt ((100 + 141) / 2) ((50 + 70) / 2)
  /\ (100 <= image.X (center (image.Rect (image.Pt 100 50) (image.Pt 141 70))) <= 141)%Z
  /\ (50 <= image.Y (center (image.Rect (image.Pt 100 50) (image.Pt 141 70))) <= 70)%Z.
Proof.
  apply (center_is_midpoint (image.Rect (image.Pt 100 50) (image.Pt 141 70)));
    simpl; lia.
Defined.

(** X22: on a grey mask (the three channels hold one and the same byte
    under the centre of the box) [isInsideMask] is true exactly when that
    byte is not zero: the [uint8] sum of three equal bytes wraps to zero
    only for the byte 0. *)
Theorem isInsideMask_grey :
  forall (mask0 mask1 mask2 : Z -> Z -> Z) (rect : image.Rectangle) (v : Z),
    mask0 (image.Y (center rect)) (image.X (center rect)) = v ->
    mask1 (image.Y (center rect)) (image.X (center rect)) = v ->
    mask2 (image.Y (center rect)) (image.X (center rect)) = v ->
    (0 <= v < 256)%Z ->
    isInsideMask (MkBackgroundMask [mask0; mask1; mask2]) rect = Ok (negb (v =? 0)%Z).
Proof.
  intros mask0 mask1 mask2 rect v H0 H1 H2 Hv. unfold isInsideMask.
  cbn [mask lookup list_lookup]. cbv zeta. rewrite H0, H1, H2. clear H0 H1 H2.
  f_equal. unfold Uint8.add, Uint8.wrap.
  destruct (v =? 0)%Z eqn:E; cbn [negb].
  - apply Z.eqb_eq in E. subst v. reflexivity.
  - apply Z.eqb_neq in E. rewrite Z.gtb_ltb. apply Z.ltb_lt.
    Z.div_mod_to_equations. lia.
Qed.

(** A white mask pixel under the centre of the box (100,50)-(140,70). *)
Lemma isInsideMask_grey_witness :
  isInsideMask (MkBackgroundMask [fun _ _ => 255%Z; fun _ _ => 255%Z; fun _ _ => 255%Z])
               (image.Rect (image.Pt 100 50) (image.Pt 140 70))
  = Ok (negb (255 =? 0)%Z).
Proof.
  apply (isInsideMask_grey (fun _ _ => 255%Z) (fun _ _ => 255%Z) (fun _ _ => 255%Z)
           (image.Rect (image.Pt 100 50) (image.Pt 140 70)) 255%Z);
    try reflexivity. lia.
Defined.

(** ** writeMatToBytes *)

(** X23: [writeMatToBytes] never returns the encoded image: whatever the
    conversion and the encoder do, the byte slice it returns is empty (it
    returns [buf], not the buffer the encoder wrote to); the error it
    returns is the first one that occurred. *)
Theorem writeMatToBytes_returns_no_bytes :
  forall (Image : Type)
         (ToImage : gocv.Mat -> Image * option error)
         (Encode : Image -> list Z * option error)
         (mat : gocv.Mat),
    fst (writeMatToBytes ToImage Encode mat) = [] /\
    snd (writeMatToBytes ToImage Encode mat)
    = match snd (ToImage mat) with
      | Some e => Some e
      | None => snd (Encode (fst (ToImage mat)))
      end.
Proof.
  intros Image ToImage Encode mat. unfold writeMatToBytes.
  destruct (ToImage mat) as [target [e|]]; cbn [fst snd]; [split; reflexivity|].
  destruct (Encode target) as [written [e|]]; split; reflexivity.
Qed.

(** ** The speed scale *)

(** X24: the speed scale of the program: for a counted pixel distance
    [d] >= 0 over a positive duration, the reported speed is between
    0.15636 and 0.15637 times the pixels per second. *)
Theorem mph_per_pixel_per_second :
  forall (d : R) (duration : time.Duration),
    0 <= d ->
    (0 < duration)%Z ->
    0.15636 * (d / time.Seconds duration) <= mph d duration
    <= 0.15637 * (d / time.Seconds duration).
Proof.
  intros d duration Hd Hdur.
  pose proof ftperpixel_enclosure as [Hl Hu].
  assert (Hs : 0 < time.Seconds duration).
  { unfold time.Seconds. apply Rdiv_lt_0_compat; [apply IZR_lt; exact Hdur | lra]. }
  assert (Hq : 0 <= d / time.Seconds duration).
  { apply Rmult_le_pos; [exact Hd | left; apply Rinv_0_lt_compat; exact Hs]. }
  assert (Hmph : mph d duration = (d / time.Seconds duration) * (ftperpixel * 0.681818)).
  { unfold mph, mph_of. fold (ft d). change (ft d) with (d * ftperpixel).
    unfold Rdiv. ring. }
  rewrite Hmph. split; nra.
Qed.

(** 600 pixels in two seconds. *)
Lemma mph_per_pixel_per_second_witness :
  0.15636 * (600 / time.Seconds 2000000000%Z) <= mph 600 2000000000%Z
  <= 0.15637 * (600 / time.Seconds 2000000000%Z).
Proof.
  apply (mph_per_pixel_per_second 600 2000000000%Z); [lra | lia].
Defined.

(** ** Where the cars of the register come from *)

Lemma registerNew_is_Some (f : Frame) (register : gmap N Car) (id : N) :
  is_Some (registerNew f register !! id) ->
  is_Some (register !! id) \/ In id (NewObjects f).
Proof.
  unfold registerNew. generalize (NewObjects f). intros l. revert register.
  induction l as [|k l IH]; intros register H; [left; exact H|].
  cbn [fold_left] in H. destruct (IH _ H) as [Hreg | Hin]; [|right; right; exact Hin].
  destruct (N.eq_dec k id) as [-> | Hne]; [right; left; reflexivity|].
  rewrite lookup_insert_ne in Hreg by exact Hne. left. exact Hreg.
Qed.

Lemma frameStep_is_Some (f : Frame) (st st' : State) (id : N) :
  frameStep f st = Ok st' ->
  is_Some (cars st' !! id) ->
  is_Some (cars st !! id) \/ In id (NewObjects f).
Proof.
  intros Hrun. unfold frameStep in Hrun. revert id.
  refine (finalize_invariant
            (fun s => forall id, is_Some (cars s !! id) ->
                                 is_Some (cars st !! id) \/ In id (NewObjects f))
            f _ _ _ st' _ Hrun).
  - intros s i s' Hs Hremove id Hid.
    destruct (removeCar_frame (now f) s i s' Hremove) as [Hcars _].
    rewrite Hcars in Hid. apply Hs.
    destruct (N.eq_dec i id) as [-> | Hne].
    + rewrite lookup_delete_eq in Hid. destruct Hid as [x Hx]. discriminate Hx.
    + rewrite lookup_delete_ne in Hid by exact Hne. exact Hid.
  - intros s _ id Hid. cbn [cars] in Hid. rewrite lookup_empty in Hid.
    destruct Hid as [x Hx]. discriminate Hx.
  - intros id Hid. cbn [cars] in Hid. apply registerNew_is_Some.
    apply elem_of_dom. apply elem_of_dom in Hid.
    rewrite updateCars_dom in Hid. exact Hid.
Qed.

(** X25: the register only ever holds identifiers the tracker reported
    as new: after any number of frames that ran without a panic, every
    live identifier was live at the start or is among the new objects of
    one of the frames. *)
Theorem mainLoop_cars_come_from_new_objects :
  forall (frames : list Frame) (st st' : State) (id : N),
    mainLoop frames st = Ok st' ->
    is_Some (cars st' !! id) ->
    is_Some (cars st !! id) \/ exists f, In f frames /\ In id (NewObjects f).
Proof.
  intros frames. unfold mainLoop. induction frames as [|f frames IH];
    intros st st' id Hrun Hid; cbn [for_range] in Hrun.
  - injection Hrun as <-. left. exact Hid.
  - destruct (frameStep f st) as [s1|] eqn:E; cbn [bind] in Hrun; [|discriminate Hrun].
    destruct (IH s1 st' id Hrun Hid) as [H1 | (g & Hg & Hnew)].
    + destruct (frameStep_is_Some f st s1 id E H1) as [H0 | Hnew];
        [left; exact H0 | right; exists f; split; [left; reflexivity | exact Hnew]].
    + right. exists g. split; [right; exact Hg | exact Hnew].
Qed.

(** Object 1 is live after its first frame: it was new in that frame. *)
Lemma mainLoop_cars_come_from_new_objects_witness :
  is_Some (cars (MkState ∅ []) !! 1%N)
  \/ exists f, In f [first_sight_frame [1%N]] /\ In 1%N (NewObjects f).
Proof.
  apply (mainLoop_cars_come_from_new_objects [first_sight_frame [1%N]]
           (MkState ∅ []) (MkState {[ 1%N := first_sight_car 1 ]} []) 1%N).
  - reflexivity.
  - exists (first_sight_car 1). reflexivity.
Defined.

(** ** One object tracked alone *)

(** X26: an iteration with one tracked object [o], already registered and
    the only live car: the car stays live, nothing is emitted, and its
    track gains the refined centre when both coordinates of the centre
    are positive, and nothing otherwise. *)
Theorem frameStep_single_tracked_object :
  forall (f : Frame) (o : N) (car : Car) (events : list Event),
    Objects f = [o] ->
    NewObjects f = [] ->
    carIDs f = [o] ->
    frameStep f (MkState {[ o := car ]} events)
    = Ok (MkState
            {[ o := if (image.X (refined_center f car) >? 0)%Z
                       && (image.Y (refined_center f car) >? 0)%Z
                    then extended f o car else car ]}
            events).
Proof.
  intros f o car events Hobjs Hnew Hids.
  unfold frameStep, registerNew, updateCars, finalize.
  rewrite Hobjs, Hnew, Hids. cbn [fold_left length Nat.eqb andb cars emitted].
  cbn [for_range]. unfold removeUnlessSame. rewrite N.eqb_refl. cbn [bind].
  f_equal. f_equal.
  unfold updateCar, extended, refined_center. rewrite lookup_singleton_eq.
  destruct (Update f (Tracker car)) as [rect ok]. cbn [fst].
  destruct ((image.X (center rect) >? 0)%Z && (image.Y (center rect) >? 0)%Z);
    [apply insert_singleton_eq | reflexivity].
Qed.

(** Object 1, seen before at (120,60), is refined to (120,60) again. *)
Lemma frameStep_single_tracked_object_witness :
  let f := MkFrame [1%N] [] (fun id => id)
             (fun _ => (image.Rect (image.Pt 100 50) (image.Pt 140 70), true))
             (fun id => (100 + id)%N) 6%Z [1%N] in
  frameStep f (MkState {[ 1%N := first_sight_car 1 ]} [])
  = Ok (MkState
          {[ 1%N := if (image.X (refined_center f (first_sight_car 1)) >? 0)%Z
                       && (image.Y (refined_center f (first_sight_car 1)) >? 0)%Z
                    then extended f 1%N (first_sight_car 1) else first_sight_car 1 ]}
          []).
Proof.
  intros f.
  apply (frameStep_single_tracked_object f 1%N (first_sight_car 1) []); reflexivity.
Defined.
